(** * Panasonic H&C Bluetooth protocol: parcel/packet codec and session layer

    A shallow embedding of [panasonic_hc_proto.py] and of the parts of
    [panasonic_hc.py] that use it, with the properties of the codec stated
    and proved over the embedding.

    Conventions.
    - A Python [bytes]/[bytearray]/list of ints is a [list Z]; the values a
      [bytes] object can hold are those satisfying [is_byte].
    - A Python exception is a value of [exn]; a computation that may raise
      has type [result A].
    - A Python [float] is an IEEE 754 binary64 number. The temperature
      passed to a command is a [float] ([spec_float] of the standard
      library, with the library's correctly rounded [*] and [+]). The
      temperatures the decoder computes, [(b - 70) / 2] and [b / 10] for a
      byte [b], are exact in binary64 and are given by their value in
      [Q]. *)

From Stdlib Require Import ZArith QArith Qpower Lia String Bool SpecFloat.
From stdpp Require Import base numbers list.

Local Open Scope Z_scope.
Bind Scope string_scope with string.

(** ** Exceptions and the error monad *)

Inductive exn : Type :=
| IndexError                      (* indexing out of range, also on an empty read *)
| ValueError (msg : string)       (* raised by the code, by Enum(value), by bytes(..) *)
| KeyError (msg : string)         (* Enum[name] with an unknown name *)
| TypeError (msg : string)        (* call with a wrong number of arguments *)
| OverflowError                   (* int.to_bytes() of a value that needs more than one byte; int(inf) *)
| ImportError (msg : string)      (* from m import n, where m does not define n *)
| NameError (name : string)       (* a name bound in no enclosing scope *)
| PanasonicHCException (msg : string).

Inductive result (A : Type) : Type :=
| Ok (a : A)
| Err (e : exn).
Arguments Ok {A} a.
Arguments Err {A} e.

Definition bind {A B} (m : result A) (k : A -> result B) : result B :=
  match m with
  | Ok a => k a
  | Err e => Err e
  end.

Notation "x <- m ;; k" := (bind m (fun x => k))
  (at level 100, m at next level, right associativity).

Definition is_ok {A} (r : result A) : bool :=
  match r with Ok _ => true | Err _ => false end.

(** ** Python sequences *)

Definition is_byte (b : Z) : bool := (0 <=? b) && (b <? 256).
Definition is_bytes (l : list Z) : bool := forallb is_byte l.

(** [bytes(l)] for a list of ints. *)
Definition bytes (l : list Z) : result (list Z) :=
  if is_bytes l then Ok l else Err (ValueError "bytes must be in range(0, 256)"%string).

(** [i.to_bytes()]: one byte, big endian, unsigned. *)
Definition to_bytes (i : Z) : result (list Z) :=
  if is_byte i then Ok [i] else Err OverflowError.

(** Index normalisation of [l[i]]: a negative index counts from the end. *)
Definition norm_index (n : nat) (i : Z) : option nat :=
  let j := if i <? 0 then i + Z.of_nat n else i in
  if (0 <=? j) && (j <? Z.of_nat n) then Some (Z.to_nat j) else None.

(** [l[i]] *)
Definition getitem (l : list Z) (i : Z) : result Z :=
  match norm_index (length l) i with
  | Some j => Ok (l !!! j)
  | None => Err IndexError
  end.

(** [l[i] = v] *)
Definition setitem (l : list Z) (i : Z) (v : Z) : result (list Z) :=
  match norm_index (length l) i with
  | Some j => Ok (<[j := v]> l)
  | None => Err IndexError
  end.

(** Bound normalisation of a slice: negative bounds count from the end and
    every bound is clamped into [0, len]. *)
Definition slice_bound (n : nat) (i : Z) : nat :=
  let j := if i <? 0 then i + Z.of_nat n else i in
  Z.to_nat (Z.max 0 (Z.min (Z.of_nat n) j)).

(** [l[start:stop]] *)
Definition slice {A} (l : list A) (start stop : Z) : list A :=
  let a := slice_bound (length l) start in
  let b := slice_bound (length l) stop in
  take (b - a) (drop a l).

(** [for x in xs: acc = body(x, acc)] *)
Definition for_range {A} (xs : list nat) (body : nat -> A -> A) (acc : A) : A :=
  fold_left (fun a x => body x a) xs acc.

(** [range(a, b)] and [range(a, b, -1)] *)
Definition range (a b : nat) : list nat := seq a (b - a).
Definition range_down (a b : nat) : list nat := reverse (seq (S b) (a - b)).

(** ** Obfuscation transform *)

Definition _cksum (data : list Z) : Z :=
  fold_left (fun cksum i => Z.land (cksum + i) 255) data 0.

Definition xor_const (k : Z) (x : nat) (data : list Z) : list Z :=
  <[x := Z.lxor (data !!! x) k]> data.

Definition xor_prev (x : nat) (data : list Z) : list Z :=
  <[x := Z.lxor (data !!! x) (data !!! (x - 1)%nat)]> data.

Definition _decode (data : list Z) : result (list Z) :=
  let data := for_range (range 0 (length data)) (xor_const 105) data in
  let data := for_range (range_down (length data - 1) 0) xor_prev data in
  d0 <- getitem data 0 ;;
  data <- setitem data 0 (Z.lxor d0 202) ;;
  last <- getitem data (-1) ;;
  if negb (_cksum (slice data 1 (-1)) =? last)
  then Err (ValueError "Bad Checksum"%string)
  else bytes data.

Definition _encode (data : list Z) : result (list Z) :=
  data <- setitem data (-1) (_cksum (slice data 1 (-1))) ;;
  d0 <- getitem data 0 ;;
  data <- setitem data 0 (Z.lxor d0 202) ;;
  let data := for_range (range 1 (length data)) xor_prev data in
  let data := for_range (range 0 (length data)) (xor_const 105) data in
  bytes data.

(** ** Enumerations

    [E(v)] looks a member up by value and raises [ValueError] when there is
    none; [E[n]] looks it up by name and raises [KeyError]. *)

Module MODE.
Inductive t : Set := heat | cool | fan_only | dry | auto.

Definition value (m : t) : Z :=
  match m with heat => 1 | cool => 2 | fan_only => 3 | dry => 4 | auto => 5 end.

Definition name (m : t) : string :=
  match m with
  | heat => "heat" | cool => "cool" | fan_only => "fan_only"
  | dry => "dry" | auto => "auto"
  end.

Definition members : list t := [heat; cool; fan_only; dry; auto].

Definition of_value (v : Z) : result t :=
  match find (fun m => value m =? v) members with
  | Some m => Ok m
  | None => Err (ValueError "not a valid MODE")
  end.

Definition of_name (n : string) : result t :=
  match find (fun m => String.eqb (name m) n) members with
  | Some m => Ok m
  | None => Err (KeyError n)
  end.
End MODE.

Module FANSPEED.
Inductive t : Set := auto | high | medium | low.

Definition value (f : t) : Z :=
  match f with auto => 2 | high => 3 | medium => 4 | low => 5 end.

Definition name (f : t) : string :=
  match f with
  | auto => "auto" | high => "high" | medium => "medium" | low => "low"
  end.

Definition members : list t := [auto; high; medium; low].

Definition of_value (v : Z) : result t :=
  match find (fun m => value m =? v) members with
  | Some m => Ok m
  | None => Err (ValueError "not a valid FANSPEED")
  end.

Definition of_name (n : string) : result t :=
  match find (fun m => String.eqb (name m) n) members with
  | Some m => Ok m
  | None => Err (KeyError n)
  end.
End FANSPEED.

Module PACKET_TYPE.
Definition SET_TEMP : Z := 76.
Definition SET_POWER : Z := 65.
Definition SET_MODE : Z := 66.
Definition SET_POWERSAVE : Z := 84.
End PACKET_TYPE.

Module COMPONENT.
Inductive t : Set := I_UNIT1 | O_UNIT1 | ALL_UNITS | APP | BLE_MODULE_UART.

Definition value (c : t) : Z :=
  match c with
  | I_UNIT1 => 1 | O_UNIT1 => 9 | ALL_UNITS => 247 | APP => 249
  | BLE_MODULE_UART => 254
  end.

Definition name (c : t) : string :=
  match c with
  | I_UNIT1 => "I_UNIT1" | O_UNIT1 => "O_UNIT1" | ALL_UNITS => "ALL_UNITS"
  | APP => "APP" | BLE_MODULE_UART => "BLE_MODULE_UART"
  end.

Definition members : list t := [I_UNIT1; O_UNIT1; ALL_UNITS; APP; BLE_MODULE_UART].

Definition of_value (v : Z) : result t :=
  match find (fun m => value m =? v) members with
  | Some m => Ok m
  | None => Err (ValueError "not a valid COMPONENT")
  end.

Definition of_name (n : string) : result t :=
  match find (fun m => String.eqb (name m) n) members with
  | Some m => Ok m
  | None => Err (KeyError n)
  end.
End COMPONENT.

Module OPERATION.
Inductive t : Set := SET | SET_RES | REQ | REQ_RES | NOTIFY.

Definition value (o : t) : Z :=
  match o with SET => 0 | SET_RES => 1 | REQ => 2 | REQ_RES => 3 | NOTIFY => 4 end.

Definition name (o : t) : string :=
  match o with
  | SET => "SET" | SET_RES => "SET_RES" | REQ => "REQ"
  | REQ_RES => "REQ_RES" | NOTIFY => "NOTIFY"
  end.

Definition members : list t := [SET; SET_RES; REQ; REQ_RES; NOTIFY].

Definition of_value (v : Z) : result t :=
  match find (fun m => value m =? v) members with
  | Some m => Ok m
  | None => Err (ValueError "not a valid OPERATION")
  end.

Definition of_name (n : string) : result t :=
  match find (fun m => String.eqb (name m) n) members with
  | Some m => Ok m
  | None => Err (KeyError n)
  end.
End OPERATION.

(** ** Packets *)

(** The attributes [PanasonicBLEPacketStatus.__init__] adds to a packet. *)
Record StatusFields : Type := {
  curtemp : Q;
  power : Z;
  mode : MODE.t;
  temp : Q;
  fanspeed : FANSPEED.t;
  powersave : Z
}.

(** The three packet classes; every instance has [ptype] and [pdata]. *)
Inductive Packet : Type :=
| PanasonicBLEPacket (ptype : Z) (pdata : list Z)
| PanasonicBLEPacketStatus (ptype : Z) (pdata : list Z) (fields : StatusFields)
| PanasonicBLEPacketOutdoorTemp (ptype : Z) (pdata : list Z) (outdoor_temp : Q).

Definition ptype (p : Packet) : Z :=
  match p with
  | PanasonicBLEPacket t _ => t
  | PanasonicBLEPacketStatus t _ _ => t
  | PanasonicBLEPacketOutdoorTemp t _ _ => t
  end.

Definition pdata (p : Packet) : list Z :=
  match p with
  | PanasonicBLEPacket _ d => d
  | PanasonicBLEPacketStatus _ d _ => d
  | PanasonicBLEPacketOutdoorTemp _ d _ => d
  end.

(** [isinstance(packet, PanasonicBLEParcel.PanasonicBLEPacketStatus)] *)
Definition is_status (p : Packet) : bool :=
  match p with PanasonicBLEPacketStatus _ _ _ => true | _ => false end.

(** [(b - 70) / 2] *)
Definition half_degrees (b : Z) : Q := (inject_Z (b - 70) / 2)%Q.

(** [PanasonicBLEPacketStatus(ptype, pdata)] *)
Definition PanasonicBLEPacketStatus_init (ptype : Z) (pdata : list Z) : result Packet :=
  let curtemp := 0%Q in
  d0 <- getitem pdata 0 ;;
  let power := Z.land d0 1 in
  d0 <- getitem pdata 0 ;;
  mode <- MODE.of_value (Z.land (Z.shiftr d0 5) 7) ;;
  d4 <- getitem pdata 4 ;;
  let temp := half_degrees d4 in
  d1 <- getitem pdata 1 ;;
  fanspeed <- FANSPEED.of_value (Z.land (Z.shiftr d1 5) 7) ;;
  powersave <- getitem pdata (-6) ;;
  curtemp <- (if 12 <? Z.of_nat (length pdata)
              then d5 <- getitem pdata 5 ;; Ok (half_degrees d5)
              else Ok curtemp) ;;
  Ok (PanasonicBLEPacketStatus ptype pdata
        {| curtemp := curtemp; power := power; mode := mode; temp := temp;
           fanspeed := fanspeed; powersave := powersave |}).

(** A positional argument of a call. *)
Inductive pyarg : Type :=
| ArgInt (i : Z)
| ArgBytes (b : list Z).

(** A name that is bound in no enclosing scope. *)
Definition unbound {A} (name : string) : result A :=
  Err (NameError name).

(** [PanasonicBLEPacketOutdoorTemp(...)]. Its [__init__] is declared as
    [def __init__(self)], without [ptype] and [pdata]: a call with
    arguments raises [TypeError], and the body, which reads [ptype] and
    [pdata], finds neither name bound. *)
Definition PanasonicBLEPacketOutdoorTemp_init (args : list pyarg) : result Packet :=
  match args with
  | [] =>
      ptype <- unbound "ptype" ;;
      pdata <- unbound "pdata" ;;
      d1 <- getitem pdata 1 ;;
      Ok (PanasonicBLEPacketOutdoorTemp ptype pdata (inject_Z d1 / 10)%Q)
  | _ :: _ =>
      Err (TypeError "__init__() takes 1 positional argument but 3 were given")
  end.

(** An [io.BytesIO] opened on a buffer is represented by the bytes not yet
    read. [fd.read(n)] returns the next [n] bytes, or all that are left when
    fewer remain, and advances. *)
Definition BytesIO : Type := list Z.

Definition read (n : nat) (fd : BytesIO) : list Z * BytesIO :=
  (take n fd, drop n fd).

(** [fd.read(1)[0]] *)
Definition read_byte (fd : BytesIO) : result (Z * BytesIO) :=
  let (b, fd) := read 1 fd in
  b0 <- getitem b 0 ;;
  Ok (b0, fd).

(** [PanasonicBLEPacket.parse(fd)] *)
Definition PanasonicBLEPacket_parse (fd : BytesIO) : result (Packet * BytesIO) :=
  r <- read_byte fd ;;
  let (ptype, fd) := r : Z * BytesIO in
  r <- read_byte fd ;;
  let (plen, fd) := r : Z * BytesIO in
  let (pdata, fd) := read (Z.to_nat plen) fd in
  if ptype =? 129 then
    p <- PanasonicBLEPacketStatus_init ptype pdata ;; Ok (p, fd)
  else if ptype =? 33 then
    p <- PanasonicBLEPacketOutdoorTemp_init [ArgInt ptype; ArgBytes pdata] ;; Ok (p, fd)
  else Ok (PanasonicBLEPacket ptype pdata, fd).

(** [packet.encode()] *)
Definition PanasonicBLEPacket_encode (p : Packet) : result (list Z) :=
  t <- to_bytes (ptype p) ;;
  l <- to_bytes (Z.of_nat (length (pdata p))) ;;
  Ok (t ++ l ++ pdata p).

(** ** Parcels *)

Record PanasonicBLEParcel : Type := {
  src : COMPONENT.t;
  dst : COMPONENT.t;
  op : OPERATION.t;
  packets : list Packet
}.

(** [PanasonicBLEParcel(src=.., dst=.., op=.., packets=..)] *)
Definition PanasonicBLEParcel_init (src dst op : string) (packets : list Packet)
  : result PanasonicBLEParcel :=
  s <- COMPONENT.of_name src ;;
  d <- COMPONENT.of_name dst ;;
  o <- OPERATION.of_name op ;;
  Ok {| src := s; dst := d; op := o; packets := packets |}.

(** [[PanasonicBLEPacket.parse(fd) for _ in range(num_packets)]] *)
Fixpoint parse_packets (num_packets : nat) (fd : BytesIO) : result (list Packet * BytesIO) :=
  match num_packets with
  | O => Ok ([], fd)
  | S n =>
      r <- PanasonicBLEPacket_parse fd ;;
      let (p, fd) := r : Packet * BytesIO in
      r <- parse_packets n fd ;;
      let (ps, fd) := r : list Packet * BytesIO in
      Ok (p :: ps, fd)
  end.

(** [PanasonicBLEParcel.parse(data)] *)
Definition PanasonicBLEParcel_parse (data : list Z) : result PanasonicBLEParcel :=
  data <- _decode data ;;
  let fd : BytesIO := data in
  r <- read_byte fd ;;
  let (sync, fd) := r : Z * BytesIO in
  if negb (sync =? 17) then Err (ValueError "Bad packet") else
  r <- read_byte fd ;;
  let (b, fd) := r : Z * BytesIO in
  src <- COMPONENT.of_value b ;;
  r <- read_byte fd ;;
  let (b, fd) := r : Z * BytesIO in
  dst <- COMPONENT.of_value b ;;
  r <- read_byte fd ;;
  let (b, fd) := r : Z * BytesIO in
  op <- OPERATION.of_value b ;;
  r <- read_byte fd ;;
  let (num_packets, fd) := r : Z * BytesIO in
  r <- parse_packets (Z.to_nat num_packets) fd ;;
  let (packets, fd) := r : list Packet * BytesIO in
  PanasonicBLEParcel_init (COMPONENT.name src) (COMPONENT.name dst)
    (OPERATION.name op) packets.

(** [for p in self.packets: fd.write(p.encode())], on the bytes written so far *)
Fixpoint write_packets (fd : list Z) (ps : list Packet) : result (list Z) :=
  match ps with
  | [] => Ok fd
  | p :: ps => b <- PanasonicBLEPacket_encode p ;; write_packets (fd ++ b) ps
  end.

(** The bytes [parcel.encode()] has written to [fd] when it calls [_encode]. *)
Definition PanasonicBLEParcel_layout (p : PanasonicBLEParcel) : result (list Z) :=
  let fd : list Z := [] in
  let fd := fd ++ [17] in
  b <- to_bytes (COMPONENT.value (src p)) ;;
  let fd := fd ++ b in
  b <- to_bytes (COMPONENT.value (dst p)) ;;
  let fd := fd ++ b in
  b <- to_bytes (OPERATION.value (op p)) ;;
  let fd := fd ++ b in
  b <- to_bytes (Z.of_nat (length (packets p))) ;;
  let fd := fd ++ b in
  fd <- write_packets fd (packets p) ;;
  let fd := fd ++ [0] in
  Ok fd.

(** [parcel.encode()] *)
Definition PanasonicBLEParcel_encode (p : PanasonicBLEParcel) : result (list Z) :=
  fd <- PanasonicBLEParcel_layout p ;;
  _encode fd.

(** ** Command builders *)

Definition PanasonicBLEMode (mode : Z) : result PanasonicBLEParcel :=
  pd <- bytes [mode] ;;
  PanasonicBLEParcel_init "APP" "I_UNIT1" "SET" [PanasonicBLEPacket 66 pd].

Definition PanasonicBLEEnergySaving (state : Z) : result PanasonicBLEParcel :=
  pd <- bytes [state] ;;
  PanasonicBLEParcel_init "APP" "I_UNIT1" "SET" [PanasonicBLEPacket 84 pd].

Definition PanasonicBLEPower (state : Z) : result PanasonicBLEParcel :=
  let state := state + 2 in
  pd <- bytes [state] ;;
  PanasonicBLEParcel_init "APP" "I_UNIT1" "SET" [PanasonicBLEPacket 65 pd].

Definition PanasonicBLEStatusReq : result PanasonicBLEParcel :=
  pd <- bytes [4; 0; 14] ;;
  PanasonicBLEParcel_init "APP" "I_UNIT1" "REQ" [PanasonicBLEPacket 129 pd].

(** Python floats: binary64, that is 53 bits of precision and exponents
    below 1024. [x * y] and [x + y] round to nearest, ties to even. *)
Definition float : Type := spec_float.

Definition float_mul (x y : float) : float := SFmul 53 1024 x y.
Definition float_add (x y : float) : float := SFadd 53 1024 x y.

(** [float(i)] for an int [i]: the conversion of the int operand of
    [temp * 2] and of [.. + 70]. *)
Definition float_of_int (i : Z) : float := binary_normalize 53 1024 i 0 false.

(** [int(x)] of a float: truncation towards zero; an infinity raises
    [OverflowError] and a NaN raises [ValueError]. *)
Definition py_int (x : float) : result Z :=
  match x with
  | S754_zero _ => Ok 0
  | S754_infinity _ => Err OverflowError
  | S754_nan => Err (ValueError "cannot convert float NaN to integer")
  | S754_finite s m e =>
      Ok (cond_Zopp s
            match e with
            | Zneg p => Z.pos m / 2 ^ Z.pos p
            | _ => Z.pos m * 2 ^ e
            end)
  end.

Definition PanasonicBLETemp (temp : float) : result PanasonicBLEParcel :=
  temp <- py_int (float_add (float_mul temp (float_of_int 2)) (float_of_int 70)) ;;
  pd <- bytes [9; 0; temp; 0] ;;
  PanasonicBLEParcel_init "APP" "I_UNIT1" "SET" [PanasonicBLEPacket 76 pd].

Definition PanasonicBLEOuting (state : Z) : result PanasonicBLEParcel :=
  pd <- bytes [0; 0; 17; 2; state] ;;
  PanasonicBLEParcel_init "APP" "BLE_MODULE_UART" "SET" [PanasonicBLEPacket 105 pd].

(** The command classes [panasonic_hc_proto.py] defines, by name: what
    [from .panasonic_hc_proto import (...)] can bind for a builder that
    takes one int. The module defines no [PanasonicBLEFanMode]. *)
Definition panasonic_hc_proto_builder (name : string)
  : result (Z -> result PanasonicBLEParcel) :=
  if String.eqb name "PanasonicBLEMode" then Ok PanasonicBLEMode
  else if String.eqb name "PanasonicBLEEnergySaving" then Ok PanasonicBLEEnergySaving
  else if String.eqb name "PanasonicBLEPower" then Ok PanasonicBLEPower
  else if String.eqb name "PanasonicBLEOuting" then Ok PanasonicBLEOuting
  else Err (ImportError name).

(** ** Session layer ([panasonic_hc.py]) *)

Definition MIN_TEMP : Z := 16.

Record Status : Type := {
  st_power : Z;
  st_mode : string;
  st_powersave : Z;
  st_curtemp : Q;
  st_settemp : Q;
  st_fanspeed : string
}.

(** The external BLE client, as far as the session uses it: whether it is
    connected, whether its next write raises, and what has been written to
    the write characteristic. *)
Record BleakClient : Type := {
  connected : bool;
  write_raises : bool;
  gatt_written : list (list Z)
}.

(** An update callback is a Python callable; a [callback] is the identity
    of such an object. What calling the callables does is given apart, by a
    value of [calls]: a callback takes no argument; while it runs it may
    register and unregister callbacks of the session (the synchronous
    methods of the session that change it), so a call maps the list of
    registered callbacks to the list it leaves; and it returns or raises. *)
Definition callback : Type := nat.

Definition calls : Type := callback -> list callback -> list callback * result unit.

Record PanasonicHC : Type := {
  _conn : BleakClient;
  _on_update_callbacks : list callback;
  status : option Status;
  logged : list string
}.

Definition is_connected (self : PanasonicHC) : bool := connected (_conn self).

Definition set_status (self : PanasonicHC) (st : Status) : PanasonicHC :=
  {| _conn := _conn self; _on_update_callbacks := _on_update_callbacks self;
     status := Some st; logged := logged self |}.

Definition log (self : PanasonicHC) (msg : string) : PanasonicHC :=
  {| _conn := _conn self; _on_update_callbacks := _on_update_callbacks self;
     status := status self; logged := logged self ++ [msg] |}.

(** [await self._conn.write_gatt_char(BLE_CHAR_WRITE, data)], with the
    [except (BleakError, TimeoutError)] around it. *)
Definition write_gatt_char (self : PanasonicHC) (data : list Z)
  : PanasonicHC * result unit :=
  if write_raises (_conn self)
  then (self, Err (PanasonicHCException "Error during write"))
  else ({| _conn := {| connected := connected (_conn self);
                       write_raises := write_raises (_conn self);
                       gatt_written := gatt_written (_conn self) ++ [data] |};
           _on_update_callbacks := _on_update_callbacks self;
           status := status self; logged := logged self |}, Ok tt).

Definition _async_write_command (self : PanasonicHC) (command : PanasonicBLEParcel)
  : PanasonicHC * result unit :=
  if negb (is_connected self)
  then (self, Err (PanasonicHCException "Not Connected"))
  else match PanasonicBLEParcel_encode command with
       | Err e => (self, Err e)
       | Ok data => write_gatt_char self data
       end.

(** A command whose constructor call is the argument of
    [_async_write_command]: the parcel is built first. *)
Definition write_built (self : PanasonicHC) (command : result PanasonicBLEParcel)
  : PanasonicHC * result unit :=
  match command with
  | Err e => (self, Err e)
  | Ok c => _async_write_command self c
  end.

Definition async_get_status (self : PanasonicHC) : PanasonicHC * result unit :=
  write_built self PanasonicBLEStatusReq.

Definition async_set_power (self : PanasonicHC) (state : bool) : PanasonicHC * result unit :=
  write_built self (PanasonicBLEPower (if state then 1 else 0)).

Definition async_set_temperature (self : PanasonicHC) (temp : float)
  : PanasonicHC * result unit :=
  write_built self (PanasonicBLETemp temp).

Definition async_set_mode (self : PanasonicHC) (mode : string) : PanasonicHC * result unit :=
  write_built self (m <- MODE.of_name mode ;; PanasonicBLEMode (MODE.value m)).

(** [PanasonicBLEFanMode] is a name the module imports from
    [panasonic_hc_proto]; the failure to bind it is placed where the name is
    used. *)
Definition async_set_fanmode (self : PanasonicHC) (mode : string) : PanasonicHC * result unit :=
  write_built self
    (PanasonicBLEFanMode <- panasonic_hc_proto_builder "PanasonicBLEFanMode" ;;
     f <- FANSPEED.of_name mode ;;
     PanasonicBLEFanMode (FANSPEED.value f)).

Definition async_set_energysaving (self : PanasonicHC) (state : bool) : PanasonicHC * result unit :=
  write_built self (PanasonicBLEEnergySaving (if state then 1 else 0)).

Definition set_callbacks (self : PanasonicHC) (cbs : list callback) : PanasonicHC :=
  {| _conn := _conn self; _on_update_callbacks := cbs;
     status := status self; logged := logged self |}.

(** [for callback in self._on_update_callbacks: callback()]. The loop walks
    the list object itself, by position [i]: it ends when [i] is past the
    end of the list as the callbacks called so far have left it. The result
    holds the list the callbacks have left, the callbacks called, in order,
    and whether the loop ended or a callback raised. The loop is cut after
    [fuel] calls. *)
Fixpoint run_callbacks (call : calls) (fuel : nat) (i : nat) (cbs called : list callback)
    {struct fuel} : option (list callback * list callback * result unit) :=
  match cbs !! i with
  | None => Some (cbs, called, Ok tt)
  | Some cb =>
      match fuel with
      | O => None
      | S fuel =>
          match call cb cbs with
          | (cbs, Ok _) => run_callbacks call fuel (S i) cbs (called ++ [cb])
          | (cbs, Err e) => Some (cbs, called ++ [cb], Err e)
          end
      end
  end.

Definition Status_of (f : StatusFields) : Status :=
  {| st_power := power f; st_mode := MODE.name (mode f);
     st_powersave := powersave f; st_curtemp := curtemp f;
     st_settemp := temp f; st_fanspeed := FANSPEED.name (fanspeed f) |}.

(** [for packet in parcel: ...], the loop of [on_notification]; the state
    reached is returned also when a callback raises. Every loop over the
    callbacks is cut after [fuel] calls, and a loop that is cut cuts the
    handler. *)
Fixpoint notify_packets (call : calls) (fuel : nat) (self : PanasonicHC) (ps : list Packet)
  : option (PanasonicHC * result unit) :=
  match ps with
  | [] => Some (self, Ok tt)
  | packet :: ps =>
      match packet with
      | PanasonicBLEPacketStatus _ _ f =>
          let self := set_status self (Status_of f) in
          match run_callbacks call fuel 0 (_on_update_callbacks self) [] with
          | None => None
          | Some (cbs, _, Ok _) => notify_packets call fuel (set_callbacks self cbs) ps
          | Some (cbs, _, Err e) => Some (set_callbacks self cbs, Err e)
          end
      | _ => notify_packets call fuel self ps
      end
  end.

(** The body of the [try] of [on_notification]. *)
Definition on_notification_try (call : calls) (fuel : nat) (self : PanasonicHC)
    (data : list Z) : option (PanasonicHC * result unit) :=
  match PanasonicBLEParcel_parse data with
  | Err e => Some (self, Err e)
  | Ok parcel => notify_packets call fuel self (packets parcel)
  end.

(** [on_notification(handle, data)]: [except Exception] logs and returns. *)
Definition on_notification (call : calls) (fuel : nat) (self : PanasonicHC)
    (data : list Z) : option (PanasonicHC * result unit) :=
  let self := log self "Received BLE packet" in
  match on_notification_try call fuel self data with
  | None => None
  | Some (self, Ok _) => Some (self, Ok tt)
  | Some (self, Err e) => Some (log self "Error parsing packet", Ok tt)
  end.

(** ** Structural reading of the obfuscation loops

    The functions below are what the index loops of [_encode] and [_decode]
    compute (lemmas [for_range_xor_const], [for_range_chain] and
    [for_range_unchain]); the properties of the transform are proved on
    them. *)

Definition whiten (l : list Z) : list Z := map (fun b => Z.lxor b 105) l.

(** Forward chain: every byte is xored with the previous output byte. *)
Fixpoint chain (prev : Z) (l : list Z) : list Z :=
  match l with
  | [] => []
  | b :: l => let c := Z.lxor b prev in c :: chain c l
  end.

(** Backward chain: every byte is xored with the previous input byte. *)
Fixpoint unchain (prev : Z) (l : list Z) : list Z :=
  match l with
  | [] => []
  | b :: l => Z.lxor b prev :: unchain b l
  end.

(** The buffer [_decode] holds when it compares the checksum. *)
Definition deobfuscated (data : list Z) : list Z := unchain 202 (whiten data).

(** The buffer [_encode] holds once the checksum is stored. *)
Definition with_cksum (data : list Z) : list Z :=
  <[(length data - 1)%nat := _cksum (slice data 1 (-1))]> data.

(** The sum of a list of bytes; [_cksum] is this sum modulo 256
    (lemma [_cksum_sum]). *)
Fixpoint zsum (l : list Z) : Z :=
  match l with
  | [] => 0
  | b :: l => b + zsum l
  end.

(** ** Vocabulary of the statements *)

(** What a packet puts on the wire: its type byte and its payload. *)
Definition wire_view (p : Packet) : Z * list Z := (ptype p, pdata p).

(** A packet [packet.encode()] accepts: the type fits a byte and the payload
    is a [bytes] of at most 255 bytes. *)
Definition packet_encodable (p : Packet) : bool :=
  is_byte (ptype p) && is_bytes (pdata p) && (Z.of_nat (length (pdata p)) <=? 255).

(** A payload [PanasonicBLEPacketStatus.__init__] accepts: at least 6 bytes,
    a mode code in 1..5 and a fan-speed code in 2..5. *)
Definition status_payload_ok (d : list Z) : bool :=
  (6 <=? Z.of_nat (length d))
  && is_ok (MODE.of_value (Z.land (Z.shiftr (d !!! 0%nat) 5) 7))
  && is_ok (FANSPEED.of_value (Z.land (Z.shiftr (d !!! 1%nat) 5) 7)).

(** A packet that survives a round trip: encodable, not of type 33, and of
    type 129 only with a payload the status decoder accepts. *)
Definition packet_roundtrips (p : Packet) : bool :=
  packet_encodable p
  && negb (ptype p =? 33)
  && (if ptype p =? 129 then status_payload_ok (pdata p) else true).

(** What [PanasonicBLEPacket.parse] builds from the type byte and the
    payload of a packet of a type other than 33: the status variant, with
    the fields decoded from the payload, for type 129, and a packet of the
    base class otherwise. *)
Definition reparsed (p : Packet) : result Packet :=
  if ptype p =? 129 then PanasonicBLEPacketStatus_init (ptype p) (pdata p)
  else Ok (PanasonicBLEPacket (ptype p) (pdata p)).

Definition parcel_roundtrips (p : PanasonicBLEParcel) : bool :=
  (Z.of_nat (length (packets p)) <=? 255) && forallb packet_roundtrips (packets p).

(** Flipping bit [k] of byte [j] of a buffer. *)
Definition flip_bit (c : list Z) (j : nat) (k : Z) : list Z :=
  <[j := Z.lxor (c !!! j) (2 ^ k)]> c.

(** Xoring [m] into bytes [j] and [j + 1] (where present) of a buffer: what a
    flip of byte [j] of the obfuscated buffer does to the plain one. *)
Fixpoint tamper (m : Z) (j : nat) (q : list Z) : list Z :=
  match q, j with
  | [], _ => []
  | b :: q, O =>
      Z.lxor b m :: match q with [] => [] | b' :: q => Z.lxor b' m :: q end
  | b :: q, S j => b :: tamper m j q
  end.

(** Whether [_decode] notices the flip of bit [k] of byte [j] of the
    obfuscated form of the plain buffer [q] (whose last byte is its
    checksum). *)
Definition flip_detected (q : list Z) (j : nat) (k : Z) : bool :=
  let n := length q in
  if (j =? 0)%nat || (j =? n - 1)%nat then true
  else if (j =? n - 2)%nat
  then (k <? 7) && xorb (Z.testbit (q !!! j) k) (Z.testbit (q !!! (n - 1)%nat) k)
  else (k <? 7) && eqb (Z.testbit (q !!! j) k) (Z.testbit (q !!! (j + 1)%nat) k).

(** A connected session with nothing cached and no subscriber. *)
Definition fresh_session : PanasonicHC :=
  {| _conn := {| connected := true; write_raises := false; gatt_written := [] |};
     _on_update_callbacks := []; status := None; logged := [] |}.

(** The bytes [packet.encode()] produces for an encodable packet. *)
Definition packet_wire (p : Packet) : list Z :=
  ptype p :: Z.of_nat (length (pdata p)) :: pdata p.

(** ** Iteration over a parcel

    A parcel is its own iterator: [__iter__] returns the parcel itself and
    [__next__] advances the attribute [idx] of the parcel. The object below
    is a parcel together with that attribute; [idx] is only ever assigned
    [0] and [idx + 1]. *)

Record ParcelObject : Type := {
  obj_parcel : PanasonicBLEParcel;
  idx : nat
}.

#[global] Instance Packet_inhabited : Inhabited Packet :=
  populate (PanasonicBLEPacket 0 []).

(** What a call of [__next__] does: it returns a packet or raises
    [StopIteration]. *)
Inductive next_result : Type :=
| Yield (pkt : Packet)
| StopIteration.

(** [parcel.__iter__()] *)
Definition PanasonicBLEParcel_iter (self : ParcelObject) : ParcelObject :=
  {| obj_parcel := obj_parcel self; idx := 0 |}.

(** [parcel.__next__()] *)
Definition PanasonicBLEParcel_next (self : ParcelObject) : ParcelObject * next_result :=
  if (length (packets (obj_parcel self)) <=? idx self)%nat
  then (self, StopIteration)
  else
    let pkt := packets (obj_parcel self) !!! idx self in
    ({| obj_parcel := obj_parcel self; idx := idx self + 1 |}, Yield pkt).

(** [for pkt in parcel: body], after the call of [__iter__]: [__next__] is
    called until it raises [StopIteration]. The body works on the parcel
    object and on the rest of the state; it may itself iterate over the
    parcel. The loop is cut after [fuel] calls of [__next__], and a body
    that is cut cuts the loop. *)
Fixpoint for_next {A} (fuel : nat)
    (body : Packet -> ParcelObject * A -> option (ParcelObject * A))
    (st : ParcelObject * A) : option (ParcelObject * A) :=
  match fuel with
  | O => None
  | S fuel =>
      match PanasonicBLEParcel_next st.1 with
      | (self, StopIteration) => Some (self, st.2)
      | (self, Yield pkt) =>
          match body pkt (self, st.2) with
          | Some st => for_next fuel body st
          | None => None
          end
      end
  end.

(** [for pkt in parcel: body] *)
Definition for_in {A} (fuel : nat)
    (body : Packet -> ParcelObject * A -> option (ParcelObject * A))
    (st : ParcelObject * A) : option (ParcelObject * A) :=
  for_next fuel body (PanasonicBLEParcel_iter st.1, st.2).

(** ** Update callbacks

    [on_update in l] and [l.remove(on_update)] compare the elements of the
    list with [on_update] by [==]; [same] is that comparison. *)

(** [self.register_update_callback(on_update)] *)
Definition register_update_callback (self : PanasonicHC) (on_update : callback)
  : PanasonicHC :=
  {| _conn := _conn self;
     _on_update_callbacks := _on_update_callbacks self ++ [on_update];
     status := status self; logged := logged self |}.

(** [l.remove(x)], for an [x] that is in [l]: the first element equal to [x]
    is removed. *)
Fixpoint list_remove (same : callback -> callback -> bool) (x : callback)
    (l : list callback) : list callback :=
  match l with
  | [] => []
  | y :: l => if same y x then l else y :: list_remove same x l
  end.

(** [self.unregister_update_callback(on_update)] *)
Definition unregister_update_callback (same : callback -> callback -> bool)
    (self : PanasonicHC) (on_update : callback) : PanasonicHC :=
  if existsb (fun y => same y on_update) (_on_update_callbacks self)
  then {| _conn := _conn self;
          _on_update_callbacks := list_remove same on_update (_on_update_callbacks self);
          status := status self; logged := logged self |}
  else self.

(** ** Further vocabulary *)

(** A packet of the base class that [packet.encode()] accepts and that
    [PanasonicBLEPacket.parse] reads back as a packet of the base class. *)
Definition generic_packet (p : Packet) : bool :=
  match p with
  | PanasonicBLEPacket t d =>
      is_byte t && negb (t =? 129) && negb (t =? 33)
      && is_bytes d && (Z.of_nat (length d) <=? 255)
  | _ => false
  end.

Definition generic_parcel (p : PanasonicBLEParcel) : bool :=
  (Z.of_nat (length (packets p)) <=? 255) && forallb generic_packet (packets p).

(** The obfuscated form of a plain buffer whose checksum is in place. *)
Definition obfuscated (plain : list Z) : list Z := whiten (chain 202 plain).

(** A session that differs from [self] by one more buffer written to the
    write characteristic. *)
Definition written (self : PanasonicHC) (data : list Z) : PanasonicHC :=
  {| _conn := {| connected := connected (_conn self);
                 write_raises := write_raises (_conn self);
                 gatt_written := gatt_written (_conn self) ++ [data] |};
     _on_update_callbacks := _on_update_callbacks self;
     status := status self; logged := logged self |}.

(** The last status packet of a list of packets, if there is one. *)
Fixpoint last_status (ps : list Packet) : option StatusFields :=
  match ps with
  | [] => None
  | p :: ps =>
      match last_status ps with
      | Some f => Some f
      | None => match p with PanasonicBLEPacketStatus _ _ f => Some f | _ => None end
      end
  end.

(** ** Floats as numbers *)

(** A float of binary64: a zero, an infinity, a NaN, or a finite number in
    its canonical form (53 bits, or fewer at the least exponent). *)
Definition is_float (x : float) : bool := valid_binary 53 1024 x.

(** The number a finite float denotes. *)
Definition float_value (x : float) : option Q :=
  match x with
  | S754_zero _ => Some 0%Q
  | S754_finite s m e => Some (inject_Z (cond_Zopp s (Z.pos m)) * Qpower 2 e)%Q
  | _ => None
  end.

(** [x] is a finite float that denotes [q]. *)
Definition float_is (x : float) (q : Q) : bool :=
  match float_value x with
  | Some v => Qeq_bool v q
  | None => false
  end.

(** The float [h / 2], for an int [h]. *)
Definition half_degree_float (h : Z) : float := binary_normalize 53 1024 h (-1) false.

(** Calling the callbacks [l] one after the other, up to the first that
    raises, when no call changes the list [all] of registered callbacks:
    the callbacks called, in order, and the outcome. *)
Fixpoint call_in_order (call : calls) (all l : list callback)
  : list callback * result unit :=
  match l with
  | [] => ([], Ok tt)
  | cb :: l =>
      match (call cb all).2 with
      | Ok _ => let r := call_in_order call all l in (cb :: r.1, r.2)
      | Err e => ([cb], Err e)
      end
  end.

(** What is checked, by evaluation, of the float [h / 2] for every [h] from
    -70 to 185: it is canonical, it denotes [h / 2], and the command computes
    the integer [h + 70] from it. *)
Definition half_degree_checked (h : Z) : bool :=
  match half_degree_float h with
  | S754_zero _ => h =? 0
  | S754_finite s m e => bounded 53 1024 m e
  | _ => false
  end
  && float_is (half_degree_float h) (h # 2)
  && match py_int (float_add (float_mul (half_degree_float h) (float_of_int 2))
                     (float_of_int 70)) with
     | Ok b => b =? h + 70
     | Err _ => false
     end.

(** * Properties

    First the two index loops of the obfuscation transform are related to
    the structural functions above; the claims about the codec and the
    session follow, each under its own heading. *)

Lemma is_byte_spec b : is_byte b = true <-> 0 <= b < 256.
Proof. unfold is_byte. rewrite andb_true_iff, Z.leb_le, Z.ltb_lt. tauto. Qed.

Lemma is_bytes_Forall l : is_bytes l = true <-> Forall (fun b => 0 <= b < 256) l.
Proof.
  unfold is_bytes. rewrite forallb_forall, Forall_forall.
  split; intros H x Hx.
  - apply is_byte_spec, H. by apply list_elem_of_In.
  - apply is_byte_spec, H. by apply list_elem_of_In.
Qed.

Lemma xor_byte a b : 0 <= a < 256 -> 0 <= b < 256 -> 0 <= Z.lxor a b < 256.
Proof.
  intros Ha Hb. split.
  - apply Z.lxor_nonneg. lia.
  - destruct (Z.eq_dec (Z.lxor a b) 0) as [->|Hne]; [lia|].
    change 256 with (2 ^ 8).
    apply Z.log2_lt_pow2.
    + assert (0 <= Z.lxor a b) by (apply Z.lxor_nonneg; lia). lia.
    + eapply Z.le_lt_trans; [apply Z.log2_lxor; lia|].
      apply Z.max_lub_lt.
      * destruct (Z.eq_dec a 0) as [->|]; [simpl; lia|].
        apply Z.log2_lt_pow2; lia.
      * destruct (Z.eq_dec b 0) as [->|]; [simpl; lia|].
        apply Z.log2_lt_pow2; lia.
Qed.

Lemma xor_xor a k : Z.lxor (Z.lxor a k) k = a.
Proof. by rewrite Z.lxor_assoc, Z.lxor_nilpotent, Z.lxor_0_r. Qed.

(** *** The loops compute the structural functions *)

Lemma insert_middle (pre : list Z) b x l :
  <[length pre := x]> (pre ++ b :: l) = pre ++ x :: l.
Proof. rewrite insert_app_r_alt by lia. by rewrite Nat.sub_diag. Qed.

Lemma xor_const_middle k (pre : list Z) b l :
  xor_const k (length pre) (pre ++ b :: l) = pre ++ Z.lxor b k :: l.
Proof.
  unfold xor_const.
  rewrite list_lookup_total_middle by done.
  by rewrite insert_middle.
Qed.

Lemma for_range_xor_const_from k l : forall pre : list Z,
  for_range (seq (length pre) (length l)) (xor_const k) (pre ++ l)
  = pre ++ map (fun b => Z.lxor b k) l.
Proof.
  induction l as [|b l IH]; intros pre; [done|].
  cbn [length seq for_range fold_left map].
  rewrite xor_const_middle.
  specialize (IH (pre ++ [Z.lxor b k])).
  rewrite length_app, Nat.add_1_r, <- !app_assoc in IH.
  exact IH.
Qed.

Lemma for_range_xor_const k (data : list Z) :
  for_range (range 0 (length data)) (xor_const k) data = map (fun b => Z.lxor b k) data.
Proof.
  unfold range. rewrite Nat.sub_0_r.
  exact (for_range_xor_const_from k data []).
Qed.

Lemma xor_prev_middle (pre : list Z) c b l :
  xor_prev (S (length pre)) (pre ++ c :: b :: l) = pre ++ c :: Z.lxor b c :: l.
Proof.
  unfold xor_prev.
  replace (S (length pre) - 1)%nat with (length pre) by lia.
  rewrite (list_lookup_total_middle pre (b :: l) c (length pre)) by done.
  change (pre ++ c :: b :: l) with (pre ++ [c] ++ b :: l).
  rewrite app_assoc.
  assert (Hlen : S (length pre) = length (pre ++ [c]))
    by (rewrite length_app; simpl; lia).
  rewrite (list_lookup_total_middle (pre ++ [c]) l b _ Hlen).
  rewrite Hlen, insert_middle.
  by rewrite <- app_assoc.
Qed.

Lemma for_range_chain l : forall (pre : list Z) c,
  for_range (seq (S (length pre)) (length l)) xor_prev (pre ++ c :: l)
  = pre ++ c :: chain c l.
Proof.
  induction l as [|b l IH]; intros pre c; [done|].
  cbn [length seq for_range fold_left chain].
  rewrite xor_prev_middle.
  specialize (IH (pre ++ [c]) (Z.lxor b c)).
  rewrite length_app, Nat.add_1_r, <- !app_assoc in IH.
  exact IH.
Qed.

Lemma for_range_unchain l : forall (pre : list Z) c,
  for_range (reverse (seq (S (length pre)) (length l))) xor_prev (pre ++ c :: l)
  = pre ++ c :: unchain c l.
Proof.
  induction l as [|b l IH]; intros pre c; [done|].
  cbn [length seq unchain].
  rewrite reverse_cons. unfold for_range. rewrite fold_left_app. cbn [fold_left].
  specialize (IH (pre ++ [c]) b).
  rewrite length_app, Nat.add_1_r, <- !app_assoc in IH.
  unfold for_range in IH. cbn [app] in IH. rewrite IH.
  exact (xor_prev_middle pre c b (unchain b l)).
Qed.

(** *** Normal forms of [_decode] and [_encode] *)

Ltac zbool :=
  repeat match goal with
  | |- context [?a <? ?b] => destruct (Z.ltb_spec a b); try lia
  | |- context [?a <=? ?b] => destruct (Z.leb_spec a b); try lia
  | |- context [?a =? ?b] => destruct (Z.eqb_spec a b); try lia
  end.

Lemma norm_index_head n : norm_index (S n) 0 = Some 0%nat.
Proof. unfold norm_index. zbool. done. Qed.

Lemma norm_index_last n : norm_index (S n) (-1) = Some n.
Proof. unfold norm_index. zbool. cbn [andb]. f_equal. lia. Qed.

Lemma norm_index_nil i : norm_index 0 i = None.
Proof. unfold norm_index. zbool; cbn [andb]; zbool; done. Qed.

Lemma getitem_head b (l : list Z) : getitem (b :: l) 0 = Ok b.
Proof. unfold getitem. cbn [length]. by rewrite norm_index_head. Qed.

Lemma setitem_head b v (l : list Z) : setitem (b :: l) 0 v = Ok (v :: l).
Proof. unfold setitem. cbn [length]. by rewrite norm_index_head. Qed.

Lemma slice_interior {A} (l : list A) :
  slice l 1 (-1) = take (length l - 2) (drop 1 l).
Proof.
  destruct l as [|a [|b l]]; [done..|].
  unfold slice.
  assert (Ha : slice_bound (length (a :: b :: l)) 1 = 1%nat)
    by (unfold slice_bound; cbn [length]; zbool; lia).
  assert (Hb : slice_bound (length (a :: b :: l)) (-1) = S (length l))
    by (unfold slice_bound; cbn [length]; zbool; lia).
  cbv zeta. rewrite Ha, Hb. f_equal; cbn [length]; lia.
Qed.

Lemma length_unchain l : forall p, length (unchain p l) = length l.
Proof. induction l; intros; simpl; auto. Qed.

Lemma length_chain l : forall p, length (chain p l) = length l.
Proof. induction l; intros; simpl; auto. Qed.

Lemma length_whiten l : length (whiten l) = length l.
Proof. apply length_map. Qed.

Lemma _decode_nil : _decode [] = Err IndexError.
Proof. reflexivity. Qed.

Lemma _decode_cons a l :
  _decode (a :: l) =
  (last <- getitem (deobfuscated (a :: l)) (-1) ;;
   if negb (_cksum (slice (deobfuscated (a :: l)) 1 (-1)) =? last)
   then Err (ValueError "Bad Checksum")
   else bytes (deobfuscated (a :: l))).
Proof.
  unfold _decode. rewrite for_range_xor_const.
  cbn [map]. cbn [length]. rewrite length_map.
  unfold range_down.
  replace (S (length l) - 1 - 0)%nat with (length l) by lia.
  pose proof (for_range_unchain (map (fun b => Z.lxor b 105) l) [] (Z.lxor a 105)) as H.
  cbn [length app] in H. rewrite length_map in H. rewrite H.
  rewrite getitem_head. cbn [bind]. rewrite setitem_head. cbn [bind].
  reflexivity.
Qed.

Lemma _encode_nil : _encode [] = Err IndexError.
Proof. reflexivity. Qed.

Lemma _encode_cons a l :
  _encode (a :: l) = bytes (whiten (chain 202 (with_cksum (a :: l)))).
Proof.
  unfold _encode, setitem. cbn [length]. rewrite norm_index_last. cbn [bind].
  unfold with_cksum. cbn [length].
  replace (S (length l) - 1)%nat with (length l) by lia.
  set (c := _cksum (slice (a :: l) 1 (-1))).
  assert (Hlen : length (<[length l := c]> (a :: l)) = S (length l))
    by (by rewrite length_insert).
  destruct (<[length l := c]> (a :: l)) as [|q0 q] eqn:Hq; [done|].
  rewrite getitem_head. cbn [bind length].
  rewrite norm_index_head. cbn [bind].
  change (<[0%nat := Z.lxor q0 202]> (q0 :: q)) with (Z.lxor q0 202 :: q).
  cbn [length]. unfold range at 2 3.
  replace (S (length q) - 1)%nat with (length q) by lia.
  pose proof (for_range_chain q [] (Z.lxor q0 202)) as H.
  cbn [length app] in H. rewrite H.
  change (Z.lxor q0 202 :: chain (Z.lxor q0 202) q) with (chain 202 (q0 :: q)).
  rewrite for_range_xor_const. reflexivity.
Qed.

(** *** The checksum is the sum of the bytes modulo 256 *)


Lemma land_255 x : Z.land x 255 = x mod 256.
Proof. change 255 with (Z.ones 8). by rewrite Z.land_ones. Qed.

Lemma cksum_from acc l :
  fold_left (fun cksum i => Z.land (cksum + i) 255) l (acc mod 256)
  = (acc + zsum l) mod 256.
Proof.
  revert acc. induction l as [|b l IH]; intros acc; cbn [fold_left zsum].
  - by rewrite Z.add_0_r.
  - rewrite land_255, Zplus_mod_idemp_l, IH. f_equal. lia.
Qed.

Lemma _cksum_sum l : _cksum l = zsum l mod 256.
Proof. unfold _cksum. exact (cksum_from 0 l). Qed.

Lemma _cksum_byte l : 0 <= _cksum l < 256.
Proof. rewrite _cksum_sum. apply Z.mod_pos_bound. lia. Qed.

(** *** Bytes stay bytes *)

Lemma Forall_chain l : forall p, 0 <= p < 256 ->
  Forall (fun b => 0 <= b < 256) l -> Forall (fun b => 0 <= b < 256) (chain p l).
Proof.
  induction l as [|b l IH]; intros p Hp Hl; cbn [chain]; [constructor|].
  inversion Hl; subst. constructor; [by apply xor_byte|].
  apply IH; [by apply xor_byte|done].
Qed.

Lemma Forall_unchain l : forall p, 0 <= p < 256 ->
  Forall (fun b => 0 <= b < 256) l -> Forall (fun b => 0 <= b < 256) (unchain p l).
Proof.
  induction l as [|b l IH]; intros p Hp Hl; cbn [unchain]; [constructor|].
  inversion Hl; subst. constructor; [by apply xor_byte|]. by apply IH.
Qed.

Lemma Forall_whiten l :
  Forall (fun b => 0 <= b < 256) l -> Forall (fun b => 0 <= b < 256) (whiten l).
Proof.
  intros H. unfold whiten. apply Forall_map. eapply Forall_impl; [exact H|].
  intros b Hb. cbn beta in *. apply xor_byte; lia.
Qed.

Lemma Forall_with_cksum l :
  Forall (fun b => 0 <= b < 256) l -> Forall (fun b => 0 <= b < 256) (with_cksum l).
Proof. intros H. unfold with_cksum. apply Forall_insert; [done|]. apply _cksum_byte. Qed.

Lemma bytes_ok l : is_bytes l = true -> bytes l = Ok l.
Proof. unfold bytes. by intros ->. Qed.

Lemma bytes_inv l r : bytes l = Ok r -> r = l /\ is_bytes l = true.
Proof. unfold bytes. destruct (is_bytes l); [|done]. by intros [= <-]. Qed.

(** *** Decoding inverts encoding *)

Lemma unchain_chain l : forall p, unchain p (chain p l) = l.
Proof.
  induction l as [|b l IH]; intros p; cbn [chain unchain]; [done|].
  by rewrite xor_xor, IH.
Qed.

Lemma whiten_whiten l : whiten (whiten l) = l.
Proof.
  unfold whiten. rewrite map_map. rewrite <- (map_id l) at 2.
  apply map_ext. intros b. apply xor_xor.
Qed.

Lemma deobfuscated_obfuscated l : deobfuscated (whiten (chain 202 l)) = l.
Proof. unfold deobfuscated. by rewrite whiten_whiten, unchain_chain. Qed.

Lemma length_with_cksum l : length (with_cksum l) = length l.
Proof. unfold with_cksum. by rewrite length_insert. Qed.

Lemma interior_with_cksum l : slice (with_cksum l) 1 (-1) = slice l 1 (-1).
Proof.
  rewrite !slice_interior, length_with_cksum. unfold with_cksum.
  destruct l as [|a l]; [done|].
  set (c := _cksum _). cbn [length].
  replace (S (length l) - 1)%nat with (length l) by lia.
  destruct l as [|b l]; [done|].
  cbn [length].
  replace (S (S (length l)) - 2)%nat with (length l) by lia.
  rewrite drop_insert_ge by lia.
  replace (S (length l) - 1)%nat with (length l) by lia.
  rewrite take_insert_ge by lia. done.
Qed.

Lemma getitem_last (l : list Z) x : getitem (l ++ [x]) (-1) = Ok x.
Proof.
  unfold getitem. rewrite length_app, Nat.add_1_r, norm_index_last.
  by rewrite (list_lookup_total_middle l [] x (length l)).
Qed.

Lemma last_with_cksum a l :
  getitem (with_cksum (a :: l)) (-1) = Ok (_cksum (slice (a :: l) 1 (-1))).
Proof.
  unfold getitem. rewrite length_with_cksum. cbn [length].
  rewrite norm_index_last. unfold with_cksum. cbn [length].
  replace (S (length l) - 1)%nat with (length l) by lia.
  rewrite list_lookup_total_insert_eq; [done|]. cbn [length]. lia.
Qed.

Lemma _decode_obfuscated q0 q :
  _decode (whiten (chain 202 (q0 :: q))) =
  (last <- getitem (q0 :: q) (-1) ;;
   if negb (_cksum (slice (q0 :: q) 1 (-1)) =? last)
   then Err (ValueError "Bad Checksum")
   else bytes (q0 :: q)).
Proof.
  cbn [chain whiten map]. rewrite _decode_cons.
  change (Z.lxor (Z.lxor q0 202) 105 :: map (fun b => Z.lxor b 105) (chain (Z.lxor q0 202) q))
    with (whiten (chain 202 (q0 :: q))).
  by rewrite deobfuscated_obfuscated.
Qed.

Lemma _encode_ok a l :
  is_bytes (a :: l) = true ->
  _encode (a :: l) = Ok (whiten (chain 202 (with_cksum (a :: l)))).
Proof.
  intros H. rewrite _encode_cons. apply bytes_ok.
  apply is_bytes_Forall, Forall_whiten, Forall_chain; [lia|].
  by apply Forall_with_cksum, is_bytes_Forall.
Qed.

Lemma _decode_encode a l :
  is_bytes (a :: l) = true ->
  _decode (whiten (chain 202 (with_cksum (a :: l)))) = Ok (with_cksum (a :: l)).
Proof.
  intros H.
  assert (Hne : exists q0 q, with_cksum (a :: l) = q0 :: q).
  { destruct (with_cksum (a :: l)) as [|q0 q] eqn:E; [|eauto].
    apply (f_equal length) in E. rewrite length_with_cksum in E. done. }
  destruct Hne as (q0 & q & E).
  rewrite E, _decode_obfuscated, <- E.
  rewrite last_with_cksum. cbn [bind].
  rewrite interior_with_cksum, Z.eqb_refl. cbn [negb].
  apply bytes_ok, is_bytes_Forall, Forall_with_cksum. by apply is_bytes_Forall.
Qed.

(** ** Short buffers (C7) *)

(** C7, counterexample: the one-byte buffer [163] is shorter than 3 bytes,
    yet [_encode] returns a buffer for it and [_decode] returns data. *)
Lemma short_buffer_counterexample :
  is_bytes [163] = true /\ (length [163] < 3)%nat /\
  _encode [163] = Ok [163] /\ _decode [163] = Ok [0].
Proof. repeat split; reflexivity || (cbn; lia). Qed.

(** C7, amended: on a buffer of fewer than 3 bytes both transforms fail (with
    IndexError) only when the buffer is empty; on 1 or 2 bytes [_encode]
    returns a buffer of the same length, and [_decode] returns the
    deobfuscated bytes when their last byte is 0 (the checksum of an empty
    interior) and fails with a checksum error otherwise. *)
Theorem short_buffer_behaviour (data : list Z) :
  is_bytes data = true -> (length data < 3)%nat ->
  match data with
  | [] => _encode data = Err IndexError /\ _decode data = Err IndexError
  | _ :: _ =>
      (exists out, _encode data = Ok out /\ length out = length data) /\
      _decode data =
        (if List.last (deobfuscated data) 0 =? 0
         then Ok (deobfuscated data)
         else Err (ValueError "Bad Checksum"))
  end.
Proof.
  intros Hb Hlen. destruct data as [|a l]; [by split|]. split.
  - eexists. split; [by apply _encode_ok|].
    by rewrite length_whiten, length_chain, length_with_cksum.
  - rewrite _decode_cons.
    assert (Hd : Forall (fun b => 0 <= b < 256) (deobfuscated (a :: l))).
    { apply Forall_unchain; [lia|]. by apply Forall_whiten, is_bytes_Forall. }
    apply is_bytes_Forall in Hd.
    destruct l as [|b [|c l]]; [| |cbn [length] in Hlen; lia].
    + cbn [deobfuscated whiten map unchain List.last] in *.
      set (x := Z.lxor (Z.lxor a 105) 202) in *.
      change (getitem [x] (-1)) with (Ok x). cbn [bind].
      change (_cksum (slice [x] 1 (-1))) with 0.
      rewrite (Z.eqb_sym 0). destruct (_ =? 0); cbn [negb]; [by apply bytes_ok|done].
    + cbn [deobfuscated whiten map unchain List.last] in *.
      set (x := Z.lxor (Z.lxor a 105) 202) in *.
      set (y := Z.lxor (Z.lxor b 105) (Z.lxor a 105)) in *.
      change (getitem [x; y] (-1)) with (Ok y). cbn [bind].
      change (_cksum (slice [x; y] 1 (-1))) with 0.
      rewrite (Z.eqb_sym 0). destruct (_ =? 0); cbn [negb]; [by apply bytes_ok|done].
Qed.

Lemma short_buffer_behaviour_witness :
  (exists out, _encode [0; 0] = Ok out /\ length out = 2%nat) /\
  _decode [0; 0] = Ok [163; 0].
Proof.
  exact (short_buffer_behaviour [0; 0] eq_refl ltac:(cbn; lia)).
Defined.

(** ** Status decoding (C3) *)

(** C3: the literal 13-byte status payload decodes, as a packet of type 129,
    to power 1 (on), mode heat, fan speed high, set temperature 14.5, room
    temperature 15.5 and power-save 0 (off). *)
Theorem status_decode_literal :
  let D := [33; 96; 0; 0; 99; 101; 0; 0; 0; 0; 0; 1; 0] in
  exists f,
    PanasonicBLEPacketStatus_init 129 D = Ok (PanasonicBLEPacketStatus 129 D f) /\
    PanasonicBLEPacket_parse (129 :: 13 :: D) = Ok (PanasonicBLEPacketStatus 129 D f, []) /\
    power f = 1 /\ power f = Z.land 33 1 /\
    mode f = MODE.heat /\ MODE.value (mode f) = Z.land (Z.shiftr 33 5) 7 /\
    fanspeed f = FANSPEED.high /\ FANSPEED.value (fanspeed f) = Z.land (Z.shiftr 96 5) 7 /\
    (temp f == 14.5)%Q /\ (curtemp f == 15.5)%Q /\
    powersave f = 0 /\ getitem D (Z.of_nat (length D) - 6) = Ok (powersave f) /\
    getitem D 7 = Ok (powersave f).
Proof.
  cbv zeta. eexists. split; [reflexivity|].
  repeat split; reflexivity.
Qed.

(** ** Packet framing (C4, C5) *)

Lemma read_byte_cons b (fd : BytesIO) : read_byte (b :: fd) = Ok (b, fd).
Proof. unfold read_byte, read. cbn [take drop]. by rewrite getitem_head. Qed.

Lemma read_byte_nil : read_byte [] = Err IndexError.
Proof. reflexivity. Qed.

Lemma PanasonicBLEPacket_parse_cons t L (rest : BytesIO) :
  PanasonicBLEPacket_parse (t :: L :: rest) =
  let pdata := take (Z.to_nat L) rest in
  let fd := drop (Z.to_nat L) rest in
  if t =? 129 then p <- PanasonicBLEPacketStatus_init t pdata ;; Ok (p, fd)
  else if t =? 33
  then p <- PanasonicBLEPacketOutdoorTemp_init [ArgInt t; ArgBytes pdata] ;; Ok (p, fd)
  else Ok (PanasonicBLEPacket t pdata, fd).
Proof.
  unfold PanasonicBLEPacket_parse. rewrite read_byte_cons. cbn [bind].
  rewrite read_byte_cons. cbn [bind]. reflexivity.
Qed.

Lemma PanasonicBLEPacketStatus_init_view t d p :
  PanasonicBLEPacketStatus_init t d = Ok p -> ptype p = t /\ pdata p = d.
Proof.
  unfold PanasonicBLEPacketStatus_init, bind.
  repeat match goal with
         | |- context [match ?x with Ok _ => _ | Err _ => _ end] =>
             destruct x; try discriminate
         | |- context [if ?b then _ else _] => destruct b
         end; by intros [= <-].
Qed.

Lemma PanasonicBLEPacket_parse_view t L (rest : BytesIO) p fd' :
  PanasonicBLEPacket_parse (t :: L :: rest) = Ok (p, fd') ->
  ptype p = t /\ pdata p = take (Z.to_nat L) rest /\ fd' = drop (Z.to_nat L) rest.
Proof.
  rewrite PanasonicBLEPacket_parse_cons. cbv zeta.
  destruct (t =? 129).
  - destruct (PanasonicBLEPacketStatus_init _ _) as [q|] eqn:E; [|done].
    cbn [bind]. intros [= <- <-].
    by destruct (PanasonicBLEPacketStatus_init_view _ _ _ E).
  - destruct (t =? 33); [done|]. by intros [= <- <-].
Qed.

(** C4, counterexample: with the stream [66, 5, 1] the length byte declares
    5 payload bytes and 1 remains; the decoder raises nothing and returns a
    packet whose payload has 1 byte. *)
Lemma truncated_packet_counterexample :
  PanasonicBLEPacket_parse [66; 5; 1] = Ok (PanasonicBLEPacket 66 [1], []) /\
  (length [66; 5; 1] < 2 + 5)%nat /\ (length [1] < 5)%nat.
Proof. repeat split; reflexivity || (cbn; lia). Qed.

(** C4, amended: decoding one packet reads 1 type byte, 1 length byte L and
    then the next min(L, remaining) bytes as payload. It fails (IndexError)
    when fewer than 2 bytes remain. Whatever packet it returns has the type
    byte read, the payload read, and leaves the stream just after that
    payload; the payload has exactly L bytes when at least 2 + L bytes
    remained. When fewer remained no error is raised for it: a packet of a
    type other than 129 and 33 is returned with the shorter payload. *)
Theorem packet_parse_reads (fd : BytesIO) :
  match fd with
  | t :: L :: rest =>
      (forall p fd', PanasonicBLEPacket_parse fd = Ok (p, fd') ->
         ptype p = t /\ pdata p = take (Z.to_nat L) rest /\
         fd' = drop (Z.to_nat L) rest /\
         length (pdata p) = Nat.min (Z.to_nat L) (length rest) /\
         ((2 + Z.to_nat L <= length fd)%nat -> length (pdata p) = Z.to_nat L)) /\
      (t <> 129 -> t <> 33 ->
         PanasonicBLEPacket_parse fd =
           Ok (PanasonicBLEPacket t (take (Z.to_nat L) rest), drop (Z.to_nat L) rest))
  | _ => PanasonicBLEPacket_parse fd = Err IndexError
  end.
Proof.
  destruct fd as [|t [|L rest]]; [reflexivity|reflexivity|]. split.
  - intros p fd' H. apply PanasonicBLEPacket_parse_view in H as (Ht & Hd & Hfd).
    repeat split; try done.
    + by rewrite Hd, length_take.
    + intros Hlen. rewrite Hd, length_take. cbn [length] in Hlen. lia.
  - intros H129 H33. rewrite PanasonicBLEPacket_parse_cons. cbv zeta.
    destruct (Z.eqb_spec t 129); [done|]. by destruct (Z.eqb_spec t 33).
Qed.

Lemma packet_parse_reads_witness :
  PanasonicBLEPacket_parse [66; 1; 3; 0] = Ok (PanasonicBLEPacket 66 [3], [0]).
Proof.
  exact (proj2 (packet_parse_reads [66; 1; 3; 0]) ltac:(lia) ltac:(lia)).
Defined.

(** C5: a packet of type 33 is never decoded. The constructor of the
    outdoor-temperature variant takes no argument and is called with two, so
    decoding raises TypeError for every length byte and payload; no
    temperature payload[1] / 10 is ever exposed. For a type byte other than
    129 and 33 the generic packet is returned with the raw payload. *)
Theorem outdoor_temp_packet_raises (t L : Z) (rest : BytesIO) :
  PanasonicBLEPacket_parse (33 :: L :: rest) =
    Err (TypeError "__init__() takes 1 positional argument but 3 were given") /\
  PanasonicBLEPacket_parse [33; 2; 0; 215] =
    Err (TypeError "__init__() takes 1 positional argument but 3 were given") /\
  (t <> 129 -> t <> 33 ->
     PanasonicBLEPacket_parse (t :: L :: rest) =
       Ok (PanasonicBLEPacket t (take (Z.to_nat L) rest), drop (Z.to_nat L) rest)).
Proof.
  split; [|split].
  - by rewrite PanasonicBLEPacket_parse_cons.
  - reflexivity.
  - intros H129 H33. rewrite PanasonicBLEPacket_parse_cons. cbv zeta.
    destruct (Z.eqb_spec t 129); [done|]. by destruct (Z.eqb_spec t 33).
Qed.

Lemma outdoor_temp_packet_raises_witness :
  PanasonicBLEPacket_parse [105; 2; 0; 215] = Ok (PanasonicBLEPacket 105 [0; 215], []).
Proof.
  exact (proj2 (proj2 (outdoor_temp_packet_raises 105 2 [0; 215])) ltac:(lia) ltac:(lia)).
Defined.

(** ** Session commands (C6, C8) *)

(** C6: the set-fan-speed command builds and writes nothing. The class it
    calls, PanasonicBLEFanMode, is imported from panasonic_hc_proto, which
    defines no such class: the command ends in ImportError for every fan
    speed and leaves the session, and what was written, as they were. *)
Theorem set_fanmode_raises (self : PanasonicHC) (f : FANSPEED.t) :
  FANSPEED.of_name (FANSPEED.name f) = Ok f /\
  async_set_fanmode self (FANSPEED.name f) =
    (self, Err (ImportError "PanasonicBLEFanMode")).
Proof. split; [by destruct f|reflexivity]. Qed.

Lemma to_bytes_ok i : is_byte i = true -> to_bytes i = Ok [i].
Proof. unfold to_bytes. by intros ->. Qed.




(** The command rounds as binary64 does: for 14.999999999999998, the float
    below 15, [t * 2 + 70] is 100 after rounding, and the byte is 100; for
    1e308, [t * 2] is an infinity and [int] raises. *)
Example set_temperature_rounding :
  PanasonicBLETemp (S754_finite false (15 * 2 ^ 49 - 1) (-49))
  = Ok {| src := COMPONENT.APP; dst := COMPONENT.I_UNIT1; op := OPERATION.SET;
          packets := [PanasonicBLEPacket 76 [9; 0; 100; 0]] |} /\
  is_float (S754_finite false (15 * 2 ^ 49 - 1) (-49)) = true /\
  PanasonicBLETemp (binary_normalize 53 1024 (10 ^ 308) 0 false) = Err OverflowError.
Proof. repeat split. Qed.

(** ** Parcel layout (C10) *)

Lemma COMPONENT_value_byte c : to_bytes (COMPONENT.value c) = Ok [COMPONENT.value c].
Proof. by destruct c. Qed.

Lemma OPERATION_value_byte o : to_bytes (OPERATION.value o) = Ok [OPERATION.value o].
Proof. by destruct o. Qed.

Lemma PanasonicBLEParcel_layout_eq p :
  PanasonicBLEParcel_layout p =
  (b <- to_bytes (Z.of_nat (length (packets p))) ;;
   fd <- write_packets
           ([17; COMPONENT.value (src p); COMPONENT.value (dst p);
             OPERATION.value (op p)] ++ b) (packets p) ;;
   Ok (fd ++ [0])).
Proof.
  unfold PanasonicBLEParcel_layout.
  rewrite !COMPONENT_value_byte, OPERATION_value_byte. reflexivity.
Qed.

Lemma write_packets_prefix ps : forall fd out,
  write_packets fd ps = Ok out -> exists body, out = fd ++ body.
Proof.
  induction ps as [|p ps IH]; intros fd out; cbn [write_packets].
  - intros [= <-]. exists []. by rewrite app_nil_r.
  - destruct (PanasonicBLEPacket_encode p) as [b|]; [|done]. cbn [bind].
    intros H. apply IH in H as [body ->]. exists (b ++ body). by rewrite app_assoc.
Qed.

Lemma PanasonicBLEPacket_encode_ok p :
  packet_encodable p = true -> PanasonicBLEPacket_encode p = Ok (packet_wire p).
Proof.
  unfold packet_encodable, PanasonicBLEPacket_encode, packet_wire.
  rewrite !andb_true_iff. intros [[Ht _] Hl].
  rewrite (to_bytes_ok _ Ht). cbn [bind].
  rewrite to_bytes_ok; [done|].
  unfold is_byte. apply andb_true_iff. split; [apply Z.leb_le; lia|].
  apply Z.ltb_lt. apply Z.leb_le in Hl. lia.
Qed.

Lemma write_packets_ok ps : forall fd,
  forallb packet_encodable ps = true ->
  write_packets fd ps = Ok (fd ++ flat_map packet_wire ps).
Proof.
  induction ps as [|p ps IH]; intros fd; cbn [forallb write_packets flat_map].
  - intros _. by rewrite app_nil_r.
  - rewrite andb_true_iff. intros [Hp Hps].
    rewrite (PanasonicBLEPacket_encode_ok _ Hp). cbn [bind].
    rewrite (IH _ Hps). by rewrite app_assoc.
Qed.

Lemma is_bytes_app l1 l2 : is_bytes (l1 ++ l2) = is_bytes l1 && is_bytes l2.
Proof. apply forallb_app. Qed.

Lemma is_bytes_packet_wire p : packet_encodable p = true -> is_bytes (packet_wire p) = true.
Proof.
  unfold packet_encodable, packet_wire, is_bytes. cbn [forallb].
  rewrite !andb_true_iff. intros [[Ht Hd] Hl]. repeat split; try done.
  unfold is_byte. apply andb_true_iff. split; [apply Z.leb_le; lia|].
  apply Z.ltb_lt. apply Z.leb_le in Hl. lia.
Qed.

Lemma is_bytes_flat_map_wire ps :
  forallb packet_encodable ps = true -> is_bytes (flat_map packet_wire ps) = true.
Proof.
  induction ps as [|p ps IH]; cbn [forallb flat_map]; [done|].
  rewrite andb_true_iff. intros [Hp Hps].
  by rewrite is_bytes_app, (is_bytes_packet_wire _ Hp), (IH Hps).
Qed.

(** The layout of a parcel whose packets are all encodable. *)
Lemma PanasonicBLEParcel_layout_ok p :
  (length (packets p) <= 255)%nat ->
  forallb packet_encodable (packets p) = true ->
  PanasonicBLEParcel_layout p =
    Ok ([17; COMPONENT.value (src p); COMPONENT.value (dst p); OPERATION.value (op p);
         Z.of_nat (length (packets p))] ++ flat_map packet_wire (packets p) ++ [0]) /\
  is_bytes ([17; COMPONENT.value (src p); COMPONENT.value (dst p); OPERATION.value (op p);
         Z.of_nat (length (packets p))] ++ flat_map packet_wire (packets p) ++ [0]) = true.
Proof.
  intros Hn Hps. split.
  - rewrite PanasonicBLEParcel_layout_eq.
    rewrite to_bytes_ok by (unfold is_byte; apply andb_true_iff; split;
                            [apply Z.leb_le|apply Z.ltb_lt]; lia).
    cbn [bind]. rewrite (write_packets_ok _ _ Hps). cbn [bind].
    by rewrite <- app_assoc.
  - rewrite is_bytes_app, is_bytes_app, (is_bytes_flat_map_wire _ Hps).
    assert (Hc : forall c, is_byte (COMPONENT.value c) = true) by (by intros []).
    assert (Ho : is_byte (OPERATION.value (op p)) = true) by (by destruct (op p)).
    assert (Hlen : is_byte (Z.of_nat (length (packets p))) = true).
    { unfold is_byte. apply andb_true_iff. split; [apply Z.leb_le|apply Z.ltb_lt]; lia. }
    unfold is_bytes at 1. cbn [forallb]. by rewrite !Hc, Ho, Hlen.
Qed.

(** Decoding what [_encode] returned gives back the buffer with its checksum. *)
Lemma _decode_of_encode a l out :
  _encode (a :: l) = Ok out -> _decode out = Ok (with_cksum (a :: l)).
Proof.
  rewrite _encode_cons. intros H. apply bytes_inv in H as [-> Hb].
  assert (Hq : is_bytes (with_cksum (a :: l)) = true).
  { apply is_bytes_Forall. rewrite <- (deobfuscated_obfuscated (with_cksum (a :: l))).
    apply Forall_unchain; [lia|]. by apply Forall_whiten, is_bytes_Forall. }
  destruct (with_cksum (a :: l)) as [|q0 q] eqn:E.
  { apply (f_equal length) in E. by rewrite length_with_cksum in E. }
  rewrite _decode_obfuscated, <- E, last_with_cksum. cbn [bind].
  rewrite interior_with_cksum, Z.eqb_refl. cbn [negb]. apply bytes_ok. by rewrite E.
Qed.

(** C10: a parcel of at most 255 packets is laid out with a count byte equal
    to the number of its packets, also in what the encoded buffer decodes
    to, and it is encoded whenever its packets are encodable; a parcel of
    more than 255 packets is not encoded: encode raises OverflowError. *)
Theorem packet_count_byte (p : PanasonicBLEParcel) :
  let n := length (packets p) in
  ((n <= 255)%nat ->
     (forall fd, PanasonicBLEParcel_layout p = Ok fd -> fd !! 4%nat = Some (Z.of_nat n)) /\
     (forall out, PanasonicBLEParcel_encode p = Ok out ->
        exists plain, _decode out = Ok plain /\ plain !! 4%nat = Some (Z.of_nat n)) /\
     (forallb packet_encodable (packets p) = true ->
        exists out, PanasonicBLEParcel_encode p = Ok out)) /\
  ((255 < n)%nat -> PanasonicBLEParcel_encode p = Err OverflowError).
Proof.
  cbv zeta. split.
  - intros Hn.
    assert (Hfd : forall fd, PanasonicBLEParcel_layout p = Ok fd ->
              exists body, fd = [17; COMPONENT.value (src p); COMPONENT.value (dst p);
                                 OPERATION.value (op p); Z.of_nat (length (packets p))]
                                ++ body ++ [0]).
    { intros fd. rewrite PanasonicBLEParcel_layout_eq.
      destruct (to_bytes _) as [b|] eqn:Eb; [|done]. cbn [bind].
      unfold to_bytes in Eb. destruct (is_byte _); [|done]. injection Eb as <-.
      destruct (write_packets _ _) as [w|] eqn:Ew; [|done]. cbn [bind].
      intros [= <-]. apply write_packets_prefix in Ew as [body ->].
      exists body. by rewrite <- app_assoc. }
    split; [|split].
    + intros fd H. by destruct (Hfd _ H) as [body ->].
    + intros out. unfold PanasonicBLEParcel_encode.
      destruct (PanasonicBLEParcel_layout p) as [fd|] eqn:El; [|done]. cbn [bind].
      destruct (Hfd _ eq_refl) as [body ->]. intros He.
      eexists. split; [exact (_decode_of_encode _ _ _ He)|].
      unfold with_cksum. rewrite list_lookup_insert_ne; [done|].
      cbn [length app]. rewrite length_app. cbn [length]. lia.
    + intros Hps. destruct (PanasonicBLEParcel_layout_ok p Hn Hps) as [Hl Hb].
      unfold PanasonicBLEParcel_encode. rewrite Hl. cbn [bind].
      eexists. exact (_encode_ok _ _ Hb).
  - intros Hn. unfold PanasonicBLEParcel_encode.
    rewrite PanasonicBLEParcel_layout_eq. unfold to_bytes, is_byte.
    replace (Z.of_nat (length (packets p)) <? 256) with false
      by (symmetry; apply Z.ltb_ge; lia).
    by rewrite andb_false_r.
Qed.

Lemma packet_count_byte_witness :
  (forall fd,
     PanasonicBLEParcel_layout
       {| src := COMPONENT.APP; dst := COMPONENT.I_UNIT1; op := OPERATION.SET;
          packets := [PanasonicBLEPacket 66 [1]; PanasonicBLEPacket 84 [0]] |} = Ok fd ->
     fd !! 4%nat = Some 2) /\
  PanasonicBLEParcel_encode
    {| src := COMPONENT.APP; dst := COMPONENT.I_UNIT1; op := OPERATION.SET;
       packets := repeat (PanasonicBLEPacket 66 [1]) 256 |} = Err OverflowError.
Proof.
  split.
  - exact (proj1 (proj1 (packet_count_byte
       {| src := COMPONENT.APP; dst := COMPONENT.I_UNIT1; op := OPERATION.SET;
          packets := [PanasonicBLEPacket 66 [1]; PanasonicBLEPacket 84 [0]] |})
       ltac:(cbn; lia))).
  - apply (proj2 (packet_count_byte
       {| src := COMPONENT.APP; dst := COMPONENT.I_UNIT1; op := OPERATION.SET;
          packets := repeat (PanasonicBLEPacket 66 [1]) 256 |})).
    cbn [packets]. rewrite repeat_length. lia.
Defined.

(** ** Notifications (C9) *)

Lemma run_callbacks_returns (call : calls) fuel : forall i cbs called,
  (forall cb l, length (call cb l).1 <= length l)%nat ->
  (length cbs - i <= fuel)%nat ->
  exists cbs' called' r,
    run_callbacks call fuel i cbs called = Some (cbs', called', r) /\
    (length cbs' <= length cbs)%nat.
Proof.
  induction fuel as [|fuel IH]; intros i cbs called Hcall Hfuel.
  - cbn [run_callbacks]. destruct (cbs !! i) eqn:E.
    + apply lookup_lt_Some in E. lia.
    + eauto.
  - cbn [run_callbacks]. destruct (cbs !! i) as [cb|] eqn:E; [|eauto].
    pose proof (Hcall cb cbs) as Hlen.
    destruct (call cb cbs) as [cbs1 [[]|e]]; cbn [fst] in Hlen; [|eauto].
    destruct (IH (S i) cbs1 (called ++ [cb]) Hcall ltac:(lia)) as (c & t & r & -> & Hc).
    exists c, t, r. split; [done|lia].
Qed.

Lemma notify_packets_conn (call : calls) fuel ps : forall self r,
  notify_packets call fuel self ps = Some r -> _conn r.1 = _conn self.
Proof.
  induction ps as [|p ps IH]; intros self r; cbn [notify_packets].
  - by intros [= <-].
  - destruct p as [t d|t d f|t d x]; try apply IH.
    destruct (run_callbacks _ _ _ _ _) as [[[cbs called] [[]|e]]|]; [| |done].
    + intros H. by rewrite (IH _ _ H).
    + by intros [= <-].
Qed.

Lemma notify_packets_no_status (call : calls) fuel ps : forall self,
  forallb (fun p => negb (is_status p)) ps = true ->
  notify_packets call fuel self ps = Some (self, Ok tt).
Proof.
  induction ps as [|p ps IH]; intros self; cbn [notify_packets forallb]; [done|].
  rewrite andb_true_iff. intros [Hp Hps]. destruct p; try done; by apply IH.
Qed.

Lemma notify_packets_status (call : calls) fuel ps : forall self r,
  notify_packets call fuel self ps = Some r ->
  status r.1 = status self \/
  exists t d f, In (PanasonicBLEPacketStatus t d f) ps /\
                status r.1 = Some (Status_of f).
Proof.
  induction ps as [|p ps IH]; intros self r; cbn [notify_packets].
  - intros [= <-]. by left.
  - destruct p as [t d|t d f|t d x].
    + intros H. destruct (IH _ _ H) as [H'|(t' & d' & f' & Hin & H')]; [by left|].
      right. exists t', d', f'. split; [by right|done].
    + right.
      destruct (run_callbacks _ _ _ _ _) as [[[cbs called] [[]|e]]|]; [| |done].
      * destruct (IH _ _ H) as [H'|(t' & d' & f' & Hin & H')].
        -- exists t, d, f. split; [by left|]. by rewrite H'.
        -- exists t', d', f'. split; [by right|done].
      * injection H as <-. exists t, d, f. split; [by left|done].
    + intros H. destruct (IH _ _ H) as [H'|(t' & d' & f' & Hin & H')]; [by left|].
      right. exists t', d', f'. split; [by right|done].
Qed.

Lemma notify_packets_returns (call : calls) fuel ps : forall self,
  (forall cb l, length (call cb l).1 <= length l)%nat ->
  (length (_on_update_callbacks self) <= fuel)%nat ->
  exists r, notify_packets call fuel self ps = Some r.
Proof.
  induction ps as [|p ps IH]; intros self Hcall Hfuel; cbn [notify_packets]; [eauto|].
  destruct p as [t d|t d f|t d x]; try by apply IH.
  destruct (run_callbacks_returns call fuel 0 (_on_update_callbacks (set_status self (Status_of f)))
              [] Hcall ltac:(cbn [set_status _on_update_callbacks]; lia))
    as (cbs & called & r & -> & Hlen).
  cbn [set_status _on_update_callbacks] in Hlen.
  destruct r as [[]|e]; [|eauto].
  apply IH; [done|]. cbn [set_callbacks _on_update_callbacks]. lia.
Qed.

Lemma on_notification_state (call : calls) fuel self data :
  on_notification call fuel self data =
  match on_notification_try call fuel (log self "Received BLE packet") data with
  | None => None
  | Some (s, Ok _) => Some (s, Ok tt)
  | Some (s, Err _) => Some (log s "Error parsing packet", Ok tt)
  end.
Proof. reflexivity. Qed.

(** C9: the notification handler raises nothing to its caller and leaves the
    connection as it was, whatever the callbacks do to the list of
    callbacks. When the bytes do not decode (whatever the error), or decode
    to packets none of which is a status packet, the handler returns and
    the cached status is unchanged; the cached status changes only to the
    snapshot of a status packet of a successfully decoded parcel. The
    handler returns whenever no callback leaves more callbacks registered
    than it found. *)
Theorem on_notification_contained (call : calls) (fuel : nat) (self : PanasonicHC)
    (data : list Z) :
  (forall r, on_notification call fuel self data = Some r ->
     r.2 = Ok tt /\
     _conn r.1 = _conn self /\
     (status r.1 <> status self ->
        exists parcel t d f,
          PanasonicBLEParcel_parse data = Ok parcel /\
          In (PanasonicBLEPacketStatus t d f) (packets parcel) /\
          status r.1 = Some (Status_of f))) /\
  (forall e, PanasonicBLEParcel_parse data = Err e ->
     exists s, on_notification call fuel self data = Some (s, Ok tt) /\
               status s = status self /\ _conn s = _conn self) /\
  (forall parcel, PanasonicBLEParcel_parse data = Ok parcel ->
     forallb (fun p => negb (is_status p)) (packets parcel) = true ->
     exists s, on_notification call fuel self data = Some (s, Ok tt) /\
               status s = status self /\ _conn s = _conn self) /\
  ((forall cb l, length (call cb l).1 <= length l)%nat ->
   (length (_on_update_callbacks self) <= fuel)%nat ->
   exists s, on_notification call fuel self data = Some (s, Ok tt)).
Proof.
  rewrite on_notification_state. unfold on_notification_try.
  set (s0 := log self "Received BLE packet").
  assert (Hs0 : status s0 = status self) by reflexivity.
  assert (Hc0 : _conn s0 = _conn self) by reflexivity.
  destruct (PanasonicBLEParcel_parse data) as [parcel|e0].
  - split; [|split; [done|split]].
    + intros r Hr.
      destruct (notify_packets call fuel s0 (packets parcel)) as [[s res]|] eqn:En; [|done].
      pose proof (notify_packets_conn _ _ _ _ _ En) as Hconn.
      pose proof (notify_packets_status _ _ _ _ _ En) as Hst.
      cbn [fst] in Hconn, Hst.
      assert (Hr' : r.2 = Ok tt /\ _conn r.1 = _conn s /\ status r.1 = status s)
        by (destruct res as [[]|e]; by injection Hr as <-).
      destruct Hr' as (H2 & Hrc & Hrs). rewrite Hrc, Hrs, Hconn.
      split; [done|]. split; [done|]. intros Hne.
      destruct Hst as [H|(t & d & f & Hin & H)]; [by rewrite H in Hne|].
      by exists parcel, t, d, f.
    + intros ? [= <-] Hno. rewrite notify_packets_no_status by done. by exists s0.
    + intros Hcall Hfuel.
      destruct (notify_packets_returns call fuel (packets parcel) s0 Hcall Hfuel)
        as [[s [[]|e]] ->]; eauto.
  - split; [|split; [|split]].
    + intros r [= <-]. cbn [fst snd]. repeat split; try done.
    + intros e [= <-]. eexists. split; [reflexivity|]. by split.
    + done.
    + intros _ _. eauto.
Qed.

Lemma on_notification_contained_witness :
  PanasonicBLEParcel_parse [1; 2; 3] = Err (ValueError "Bad Checksum") /\
  exists s, on_notification (fun _ l => (l, Ok tt)) 0 fresh_session [1; 2; 3]
            = Some (s, Ok tt) /\
            status s = None /\ _conn s = _conn fresh_session.
Proof.
  split; [reflexivity|].
  exact (proj1 (proj2 (on_notification_contained (fun _ l => (l, Ok tt)) 0
                         fresh_session [1; 2; 3]))
           (ValueError "Bad Checksum") eq_refl).
Defined.

(** A notification that carries a status packet replaces the cached status. *)
Example on_notification_status :
  let D := [33; 96; 0; 0; 99; 101; 0; 0; 0; 0; 0; 1; 0] in
  exists data s,
    _encode ([17; 1; 249; 4; 1; 129; 13] ++ D ++ [0]) = Ok data /\
    on_notification (fun _ l => (l, Ok tt)) 0 fresh_session data = Some (s, Ok tt) /\
    status s =
      Some {| st_power := 1; st_mode := "heat"; st_powersave := 0;
              st_curtemp := 31 # 2; st_settemp := 29 # 2; st_fanspeed := "high" |}.
Proof. cbv zeta. do 2 eexists. split; [reflexivity|]. split; reflexivity. Qed.

(** ** Round trip (C1) *)

Lemma getitem_at (d : list Z) (i : Z) :
  0 <= i < Z.of_nat (length d) -> getitem d i = Ok (d !!! Z.to_nat i).
Proof. intros H. unfold getitem, norm_index. zbool. done. Qed.

Lemma getitem_from_end (d : list Z) (i : Z) :
  0 < i <= Z.of_nat (length d) ->
  getitem d (- i) = Ok (d !!! Z.to_nat (Z.of_nat (length d) - i)).
Proof.
  intros H. unfold getitem, norm_index. zbool. cbn [andb].
  do 2 f_equal. lia.
Qed.

(** The status constructor accepts exactly the payloads [status_payload_ok]
    describes. *)
Lemma PanasonicBLEPacketStatus_init_ok t d :
  status_payload_ok d = true ->
  exists f, PanasonicBLEPacketStatus_init t d = Ok (PanasonicBLEPacketStatus t d f).
Proof.
  unfold status_payload_ok. rewrite !andb_true_iff. intros [[Hlen Hm] Hf].
  apply Z.leb_le in Hlen. unfold PanasonicBLEPacketStatus_init.
  rewrite (getitem_at d 0) by lia. cbn [bind]. change (Z.to_nat 0) with 0%nat.
  destruct (MODE.of_value _) as [m|]; [|done]. cbn [bind].
  rewrite (getitem_at d 4) by lia. cbn [bind].
  rewrite (getitem_at d 1) by lia. cbn [bind]. change (Z.to_nat 1) with 1%nat.
  destruct (FANSPEED.of_value _) as [fs|]; [|done]. cbn [bind].
  change (-6) with (- (6)). rewrite (getitem_from_end d 6) by lia. cbn [bind].
  destruct (12 <? Z.of_nat (length d)) eqn:E.
  - apply Z.ltb_lt in E. rewrite (getitem_at d 5) by lia. cbn [bind]. eauto.
  - cbn [bind]. eauto.
Qed.

Lemma PanasonicBLEPacketStatus_init_inv t d p :
  PanasonicBLEPacketStatus_init t d = Ok p -> status_payload_ok d = true.
Proof.
  unfold PanasonicBLEPacketStatus_init, status_payload_ok.
  destruct (Z.lt_ge_cases (Z.of_nat (length d)) 6) as [Hlt|Hge].
  - destruct (getitem d 0); [|done]. cbn [bind].
    destruct (MODE.of_value _); [|done]. cbn [bind].
    destruct (getitem d 4); [|done]. cbn [bind].
    destruct (getitem d 1); [|done]. cbn [bind].
    destruct (FANSPEED.of_value _); [|done]. cbn [bind].
    assert (Hend : getitem d (-6) = Err IndexError).
    { unfold getitem, norm_index. zbool; cbn [andb]; zbool; done. }
    by rewrite Hend.
  - rewrite (getitem_at d 0) by lia. cbn [bind]. change (Z.to_nat 0) with 0%nat.
    destruct (MODE.of_value _); [|done]. cbn [bind].
    rewrite (getitem_at d 4) by lia. cbn [bind].
    rewrite (getitem_at d 1) by lia. cbn [bind]. change (Z.to_nat 1) with 1%nat.
    destruct (FANSPEED.of_value _); [|done]. intros _.
    cbn [is_ok]. rewrite !andb_true_r. apply Z.leb_le. lia.
Qed.

Lemma COMPONENT_of_value_value c : COMPONENT.of_value (COMPONENT.value c) = Ok c.
Proof. by destruct c. Qed.

Lemma OPERATION_of_value_value o : OPERATION.of_value (OPERATION.value o) = Ok o.
Proof. by destruct o. Qed.

Lemma COMPONENT_of_name_name c : COMPONENT.of_name (COMPONENT.name c) = Ok c.
Proof. by destruct c. Qed.

Lemma OPERATION_of_name_name o : OPERATION.of_name (OPERATION.name o) = Ok o.
Proof. by destruct o. Qed.



Lemma with_cksum_snoc (l : list Z) x :
  exists ck, with_cksum (l ++ [x]) = l ++ [ck].
Proof.
  unfold with_cksum. eexists. rewrite length_app. cbn [length].
  replace (length l + 1 - 1)%nat with (length l) by lia.
  by rewrite insert_middle.
Qed.

Lemma forallb_roundtrips_encodable ps :
  forallb packet_roundtrips ps = true -> forallb packet_encodable ps = true.
Proof.
  rewrite !forallb_forall. intros H p Hp. specialize (H p Hp).
  unfold packet_roundtrips in H. rewrite !andb_true_iff in H. tauto.
Qed.

(** Parsing the bytes of a packet rebuilds it the way [reparsed] says. *)
Lemma PanasonicBLEPacket_parse_reparsed p (rest : BytesIO) :
  packet_roundtrips p = true ->
  exists p', PanasonicBLEPacket_parse (packet_wire p ++ rest) = Ok (p', rest) /\
             wire_view p' = wire_view p /\
             reparsed p = Ok p' /\
             is_status p' = (ptype p' =? 129).
Proof.
  unfold packet_roundtrips. rewrite !andb_true_iff. intros [[_ H33] H129].
  unfold packet_wire, reparsed. cbn [app].
  rewrite PanasonicBLEPacket_parse_cons. cbv zeta.
  rewrite Nat2Z.id, take_app_length, drop_app_length.
  destruct (ptype p =? 129) eqn:E129.
  - destruct (PanasonicBLEPacketStatus_init_ok (ptype p) _ H129) as [f ->].
    cbn [bind]. eexists. split; [reflexivity|]. cbn [is_status ptype].
    by rewrite E129.
  - apply negb_true_iff in H33. rewrite H33. eexists. split; [reflexivity|].
    cbn [is_status ptype]. rewrite E129. by destruct p.
Qed.

Lemma parse_packets_reparsed ps : forall rest : BytesIO,
  forallb packet_roundtrips ps = true ->
  exists ps', parse_packets (length ps) (flat_map packet_wire ps ++ rest) = Ok (ps', rest) /\
              map wire_view ps' = map wire_view ps /\
              map Ok ps' = map reparsed ps /\
              Forall (fun q => is_status q = (ptype q =? 129)) ps'.
Proof.
  induction ps as [|p ps IH]; intros rest; cbn [forallb length parse_packets flat_map].
  - intros _. by exists [].
  - rewrite andb_true_iff. intros [Hp Hps]. rewrite <- app_assoc.
    destruct (PanasonicBLEPacket_parse_reparsed p (flat_map packet_wire ps ++ rest) Hp)
      as (p' & -> & Hv & Hr & Hc).
    cbn [bind]. destruct (IH rest Hps) as (ps' & -> & Hvs & Hrs & Hcs). cbn [bind].
    exists (p' :: ps'). split; [done|]. cbn [map].
    rewrite Hv, Hvs, Hr, Hrs. repeat split. by constructor.
Qed.


(** C1, counterexample: the status request the session sends on connect is a
    well-formed parcel (one packet of type 129 with the 3-byte payload
    [4, 0, 14]); it is encoded, and decoding what was encoded raises
    ValueError: the packet of type 129 is handed to the status decoder. *)
Lemma roundtrip_counterexample :
  PanasonicBLEStatusReq =
    Ok {| src := COMPONENT.APP; dst := COMPONENT.I_UNIT1; op := OPERATION.REQ;
          packets := [PanasonicBLEPacket 129 [4; 0; 14]] |} /\
  PanasonicBLEParcel_encode
    {| src := COMPONENT.APP; dst := COMPONENT.I_UNIT1; op := OPERATION.REQ;
       packets := [PanasonicBLEPacket 129 [4; 0; 14]] |}
  = Ok [178; 75; 74; 72; 73; 200; 203; 207; 207; 193; 82] /\
  PanasonicBLEParcel_parse [178; 75; 74; 72; 73; 200; 203; 207; 207; 193; 82]
  = Err (ValueError "not a valid MODE").
Proof. repeat split. Qed.

(** C1, amended: a parcel of at most 255 packets, each with a type byte in
    0..255 other than 33 and a payload of at most 255 bytes, and each packet
    of type 129 with a payload the status decoder accepts (at least 6 bytes,
    mode code in 1..5, fan-speed code in 2..5), is encoded, and decoding
    the encoding yields a parcel with the same source, destination and
    operation and the same sequence of packets, type byte and payload. Of
    the packets that come back, those of type 129, and only those, are of
    the status variant, with the fields the status decoder reads from the
    payload; every other packet comes back as a packet of the base class. *)
Theorem parcel_roundtrip (p : PanasonicBLEParcel) :
  parcel_roundtrips p = true ->
  exists data p',
    PanasonicBLEParcel_encode p = Ok data /\
    PanasonicBLEParcel_parse data = Ok p' /\
    src p' = src p /\ dst p' = dst p /\ op p' = op p /\
    map wire_view (packets p') = map wire_view (packets p) /\
    map Ok (packets p') = map reparsed (packets p) /\
    Forall (fun q => is_status q = (ptype q =? 129)) (packets p').
Proof.
  unfold parcel_roundtrips. rewrite andb_true_iff. intros [Hn Hps].
  apply Z.leb_le in Hn.
  destruct (PanasonicBLEParcel_layout_ok p ltac:(lia)
              (forallb_roundtrips_encodable _ Hps)) as [Hl Hb].
  set (body := flat_map packet_wire (packets p)) in *.
  cbn [app] in Hl, Hb.
  destruct (with_cksum_snoc
              ([17; COMPONENT.value (src p); COMPONENT.value (dst p);
                OPERATION.value (op p); Z.of_nat (length (packets p))] ++ body) 0)
    as [ck Hck].
  rewrite <- app_assoc in Hck. cbn [app] in Hck.
  destruct (parse_packets_reparsed (packets p) [ck] Hps) as (ps' & Hpp & Hv & Hr & Hc).
  eexists.
  exists {| src := src p; dst := dst p; op := op p; packets := ps' |}.
  split.
  { unfold PanasonicBLEParcel_encode. rewrite Hl. cbn [bind].
    exact (_encode_ok _ _ Hb). }
  split; [|done].
  unfold PanasonicBLEParcel_parse.
  rewrite (_decode_encode _ _ Hb), Hck. cbn [bind].
  rewrite read_byte_cons. cbn [bind negb]. rewrite Z.eqb_refl. cbn [negb].
  rewrite read_byte_cons. cbn [bind]. rewrite COMPONENT_of_value_value. cbn [bind].
  rewrite read_byte_cons. cbn [bind]. rewrite COMPONENT_of_value_value. cbn [bind].
  rewrite read_byte_cons. cbn [bind]. rewrite OPERATION_of_value_value. cbn [bind].
  rewrite read_byte_cons. cbn [bind]. rewrite Nat2Z.id.
  fold body in Hpp. rewrite Hpp. cbn [bind].
  unfold PanasonicBLEParcel_init.
  by rewrite !COMPONENT_of_name_name, OPERATION_of_name_name.
Qed.

Lemma parcel_roundtrip_witness :
  let D := [33; 96; 0; 0; 99; 101; 0; 0; 0; 0; 0; 1; 0] in
  exists data p' f,
    PanasonicBLEParcel_encode
      {| src := COMPONENT.I_UNIT1; dst := COMPONENT.APP; op := OPERATION.NOTIFY;
         packets := [PanasonicBLEPacket 129 D; PanasonicBLEPacket 65 [3]] |}
    = Ok data /\
    PanasonicBLEParcel_parse data = Ok p' /\
    src p' = COMPONENT.I_UNIT1 /\ dst p' = COMPONENT.APP /\ op p' = OPERATION.NOTIFY /\
    packets p' = [PanasonicBLEPacketStatus 129 D f; PanasonicBLEPacket 65 [3]] /\
    power f = 1 /\ mode f = MODE.heat /\ fanspeed f = FANSPEED.high.
Proof.
  cbv zeta.
  destruct (parcel_roundtrip
    {| src := COMPONENT.I_UNIT1; dst := COMPONENT.APP; op := OPERATION.NOTIFY;
       packets := [PanasonicBLEPacket 129 [33; 96; 0; 0; 99; 101; 0; 0; 0; 0; 0; 1; 0];
                   PanasonicBLEPacket 65 [3]] |}
    eq_refl) as (data & p' & He & Hp & Hs & Hd & Ho & _ & Hr & _).
  exists data, p'. cbn [packets map] in Hr.
  destruct (packets p') as [|a [|b [|c l]]]; try discriminate Hr.
  injection Hr as -> ->.
  eexists. repeat split; try eassumption; reflexivity.
Defined.

(** ** Tampering with one bit of an encoded buffer (C2) *)

Lemma land_pow2_0 b k : 0 <= k -> Z.testbit b k = false -> Z.land b (2 ^ k) = 0.
Proof.
  intros Hk Hb. apply Z.bits_inj'. intros i Hi.
  rewrite Z.land_spec, Z.bits_0, (Z.pow2_bits_eqb k i Hk).
  destruct (Z.eqb_spec k i) as [<-|]; [by rewrite Hb|by rewrite andb_false_r].
Qed.

(** Xoring one bit in adds or subtracts its weight. *)
Lemma lxor_pow2 b k :
  0 <= k -> Z.lxor b (2 ^ k) = if Z.testbit b k then b - 2 ^ k else b + 2 ^ k.
Proof.
  intros Hk. destruct (Z.testbit b k) eqn:E.
  - assert (E' : Z.testbit (Z.lxor b (2 ^ k)) k = false).
    { rewrite Z.lxor_spec, E, (Z.pow2_bits_eqb k k Hk), Z.eqb_refl. done. }
    pose proof (Z.add_nocarry_lxor _ _ (land_pow2_0 _ _ Hk E')) as H.
    rewrite xor_xor in H. lia.
  - symmetry. by apply Z.add_nocarry_lxor, land_pow2_0.
Qed.

Lemma pow2_bit_range k : 0 <= k < 8 ->
  ((k <? 7) = true /\ 1 <= 2 ^ k <= 64) \/ ((k <? 7) = false /\ 2 ^ k = 128).
Proof.
  intros Hk. destruct (Z.ltb_spec k 7); [left|right]; split; try done.
  - split; [apply (Z.pow_le_mono_r 2 0 k); lia|].
    change 64 with (2 ^ 6). apply Z.pow_le_mono_r; lia.
  - by replace k with 7 by lia.
Qed.

Lemma whiten_flip (c : list Z) m : forall j,
  whiten (<[j := Z.lxor (c !!! j) m]> c) = <[j := Z.lxor (whiten c !!! j) m]> (whiten c).
Proof.
  induction c as [|b c IH]; intros j; [done|].
  destruct j as [|j].
  - cbn. f_equal. rewrite !Z.lxor_assoc. f_equal. apply Z.lxor_comm.
  - change ((b :: c) !!! S j) with (c !!! j).
    change (<[S j := ?x]> (b :: c)) with (b :: <[j := x]> c).
    cbn [whiten map]. fold (whiten c).
    change ((Z.lxor b 105 :: whiten c) !!! S j) with (whiten c !!! j).
    change (<[S j := ?x]> (Z.lxor b 105 :: whiten c))
      with (Z.lxor b 105 :: <[j := x]> (whiten c)).
    f_equal. exact (IH j).
Qed.

Lemma lxor_swap a b c : Z.lxor (Z.lxor a b) c = Z.lxor (Z.lxor a c) b.
Proof. rewrite !Z.lxor_assoc. f_equal. apply Z.lxor_comm. Qed.

Lemma unchain_flip (e : list Z) m : forall p j,
  (j < length e)%nat ->
  unchain p (<[j := Z.lxor (e !!! j) m]> e) = tamper m j (unchain p e).
Proof.
  induction e as [|b e IH]; intros p j Hj; [cbn in Hj; lia|].
  destruct j as [|j].
  - change (<[0%nat := ?x]> (b :: e)) with (x :: e).
    change ((b :: e) !!! 0%nat) with b.
    destruct e as [|b' e]; cbn [unchain tamper].
    + by rewrite (lxor_swap b m p).
    + rewrite (lxor_swap b m p). do 2 f_equal.
      symmetry. apply Z.lxor_assoc.
  - change ((b :: e) !!! S j) with (e !!! j).
    change (<[S j := ?x]> (b :: e)) with (b :: <[j := x]> e).
    cbn [unchain tamper]. f_equal. apply IH. cbn [length] in Hj. lia.
Qed.

Lemma deobfuscated_flip (c : list Z) j k :
  (j < length c)%nat ->
  deobfuscated (flip_bit c j k) = tamper (2 ^ k) j (deobfuscated c).
Proof.
  intros Hj. unfold deobfuscated, flip_bit.
  rewrite whiten_flip. apply unchain_flip. by rewrite length_whiten.
Qed.

Lemma length_tamper m q : forall j, length (tamper m j q) = length q.
Proof.
  induction q as [|b q IH]; intros j; [by destruct j|].
  destruct j as [|j]; cbn [tamper length]; [by destruct q|by rewrite IH].
Qed.

Lemma Forall_tamper m q : 0 <= m < 256 -> forall j,
  Forall (fun b => 0 <= b < 256) q -> Forall (fun b => 0 <= b < 256) (tamper m j q).
Proof.
  intros Hm. induction q as [|b q IH]; intros j Hq; [by destruct j|].
  inversion Hq as [|? ? Hb Hq']; subst. destruct j as [|j]; cbn [tamper].
  - constructor; [by apply xor_byte|]. destruct q as [|b' q]; [done|].
    inversion Hq'; subst. constructor; [by apply xor_byte|done].
  - constructor; [done|by apply IH].
Qed.

Lemma tamper_middle m (pre : list Z) b rest :
  tamper m (length pre) (pre ++ b :: rest) =
  pre ++ Z.lxor b m :: match rest with [] => [] | b' :: r => Z.lxor b' m :: r end.
Proof. induction pre as [|x pre IH]; cbn [length app tamper]; [done|by rewrite IH]. Qed.

(** What [_decode] does with a flipped obfuscated buffer. *)
Lemma _decode_flip (q : list Z) j k :
  (j < length q)%nat ->
  _decode (flip_bit (whiten (chain 202 q)) j k) =
  (last <- getitem (tamper (2 ^ k) j q) (-1) ;;
   if negb (_cksum (slice (tamper (2 ^ k) j q) 1 (-1)) =? last)
   then Err (ValueError "Bad Checksum")
   else bytes (tamper (2 ^ k) j q)).
Proof.
  intros Hj.
  assert (Hlen : length (flip_bit (whiten (chain 202 q)) j k) = length q).
  { unfold flip_bit. by rewrite length_insert, length_whiten, length_chain. }
  pose proof (deobfuscated_flip (whiten (chain 202 q)) j k) as Hd.
  rewrite length_whiten, length_chain, deobfuscated_obfuscated in Hd.
  specialize (Hd Hj).
  destruct (flip_bit (whiten (chain 202 q)) j k) as [|x xs]; [cbn in Hlen; lia|].
  by rewrite _decode_cons, Hd.
Qed.

Lemma zsum_app l1 l2 : zsum (l1 ++ l2) = zsum l1 + zsum l2.
Proof. induction l1 as [|b l1 IH]; cbn [app zsum]; lia. Qed.

Lemma slice_cons_snoc (x : Z) mid y : slice (x :: mid ++ [y]) 1 (-1) = mid.
Proof.
  rewrite slice_interior. change (drop 1 (x :: mid ++ [y])) with (mid ++ [y]).
  cbn [length]. rewrite length_app. cbn [length].
  replace (S (length mid + 1) - 2)%nat with (length mid) by lia.
  by rewrite take_app_length.
Qed.

Lemma getitem_cons_snoc (x : Z) mid y : getitem (x :: mid ++ [y]) (-1) = Ok y.
Proof. exact (getitem_last (x :: mid) y). Qed.

(** The arithmetic of a flipped bit under the modular sum. *)

Lemma lxor_pow2_ne x k : 0 <= k -> (x =? Z.lxor x (2 ^ k)) = false.
Proof.
  intros Hk. apply Z.eqb_neq. rewrite (lxor_pow2 x k Hk).
  assert (0 < 2 ^ k) by (apply Z.pow_pos_nonneg; lia).
  destruct (Z.testbit x k); lia.
Qed.

Lemma flip_first_interior s b k : 0 <= k < 8 ->
  ((Z.lxor b (2 ^ k) + s) mod 256 =? (b + s) mod 256) = false.
Proof.
  intros Hk. apply Z.eqb_neq. rewrite (lxor_pow2 b k) by lia.
  destruct (pow2_bit_range k Hk) as [[_ Hm]|[_ Hm]];
    destruct (Z.testbit b k); Z.div_mod_to_equations; lia.
Qed.

Lemma flip_last_interior s b k : 0 <= k < 8 ->
  let ck := (s + b) mod 256 in
  ((s + Z.lxor b (2 ^ k)) mod 256 =? Z.lxor ck (2 ^ k)) =
  negb ((k <? 7) && xorb (Z.testbit b k) (Z.testbit ck k)).
Proof.
  intros Hk ck.
  assert (Hck : 0 <= ck < 256) by (apply Z.mod_pos_bound; lia).
  assert (Hx : 0 <= Z.lxor ck (2 ^ k) < 256).
  { apply xor_byte; [done|]. destruct (pow2_bit_range k Hk) as [[_ ?]|[_ ?]]; lia. }
  revert Hx. rewrite (lxor_pow2 b k), (lxor_pow2 ck k) by lia. intros Hx.
  assert (Eck : ck = (s + b) mod 256) by reflexivity. clearbody ck.
  destruct (pow2_bit_range k Hk) as [[-> Hm]|[-> Hm]];
    destruct (Z.testbit b k), (Z.testbit ck k); cbn [xorb andb negb];
    first [apply Z.eqb_eq | apply Z.eqb_neq];
    Z.div_mod_to_equations; lia.
Qed.

Lemma flip_two_interior s b b' k : 0 <= k < 8 ->
  ((s + (Z.lxor b (2 ^ k) + Z.lxor b' (2 ^ k))) mod 256 =? (s + (b + b')) mod 256) =
  negb ((k <? 7) && eqb (Z.testbit b k) (Z.testbit b' k)).
Proof.
  intros Hk. rewrite (lxor_pow2 b k), (lxor_pow2 b' k) by lia.
  destruct (pow2_bit_range k Hk) as [[-> Hm]|[-> Hm]];
    destruct (Z.testbit b k), (Z.testbit b' k); cbn [eqb andb negb];
    first [apply Z.eqb_eq | apply Z.eqb_neq];
    Z.div_mod_to_equations; lia.
Qed.

(** The shape of a buffer once its checksum is stored. *)
Lemma with_cksum_shape a l :
  (l = [] /\ with_cksum (a :: l) = [0]) \/
  (exists mid x, l = mid ++ [x] /\ with_cksum (a :: l) = a :: mid ++ [_cksum mid]).
Proof.
  destruct (decide (l = [])) as [->|Hne]; [by left|right].
  destruct (exists_last Hne) as (mid & x & ->). exists mid, x. split; [done|].
  unfold with_cksum. rewrite slice_cons_snoc. cbn [length].
  rewrite length_app. cbn [length].
  replace (S (length mid + 1) - 1)%nat with (length (a :: mid)) by (cbn [length]; lia).
  exact (insert_middle (a :: mid) x _ []).
Qed.

(** [flip_detected] at each position of a sealed buffer. *)
Lemma flip_detected_first q k : flip_detected q 0 k = true.
Proof. reflexivity. Qed.

Lemma flip_detected_last (q0 : Z) mid ck k :
  flip_detected (q0 :: mid ++ [ck]) (S (length mid)) k = true.
Proof.
  unfold flip_detected. cbn [length]. rewrite length_app. cbn [length].
  replace (S (length mid + 1) - 1)%nat with (S (length mid)) by lia.
  by rewrite Nat.eqb_refl, orb_true_r.
Qed.

Lemma lookup_total_here (pre : list Z) x rest : (pre ++ x :: rest) !!! length pre = x.
Proof. by apply list_lookup_total_middle. Qed.

Lemma lookup_total_next (pre : list Z) x y rest :
  (pre ++ x :: y :: rest) !!! S (length pre) = y.
Proof.
  change (pre ++ x :: y :: rest) with (pre ++ [x] ++ y :: rest). rewrite app_assoc.
  apply list_lookup_total_middle. rewrite length_app. cbn [length]. lia.
Qed.

Lemma flip_detected_before_last (q0 : Z) pre b ck k :
  flip_detected (q0 :: (pre ++ [b]) ++ [ck]) (S (length pre)) k =
  (k <? 7) && xorb (Z.testbit b k) (Z.testbit ck k).
Proof.
  unfold flip_detected. cbn [length]. rewrite !length_app. cbn [length].
  replace (S (length pre + 1 + 1) - 1)%nat with (S (S (length pre))) by lia.
  replace (S (length pre + 1 + 1) - 2)%nat with (S (length pre)) by lia.
  replace (S (length pre) =? 0)%nat with false by done.
  replace (S (length pre) =? S (S (length pre)))%nat with false
    by (symmetry; apply Nat.eqb_neq; lia).
  rewrite Nat.eqb_refl. cbn [orb].
  rewrite <- app_assoc. cbn [app].
  change ((q0 :: ?l) !!! S (S (length pre))) with (l !!! S (length pre)).
  change ((q0 :: ?l) !!! S (length pre)) with (l !!! length pre).
  by rewrite lookup_total_here, lookup_total_next.
Qed.

Lemma flip_detected_interior (q0 : Z) pre b b' post ck k :
  flip_detected (q0 :: (pre ++ b :: b' :: post) ++ [ck]) (S (length pre)) k =
  (k <? 7) && eqb (Z.testbit b k) (Z.testbit b' k).
Proof.
  unfold flip_detected. cbn [length]. rewrite !length_app. cbn [length].
  replace (S (length pre) =? 0)%nat with false by done.
  replace (S (length pre) =? S (length pre + S (S (length post)) + 1) - 1)%nat with false
    by (symmetry; apply Nat.eqb_neq; lia).
  replace (S (length pre) =? S (length pre + S (S (length post)) + 1) - 2)%nat with false
    by (symmetry; apply Nat.eqb_neq; lia).
  cbn [orb].
  replace (S (length pre) + 1)%nat with (S (S (length pre))) by lia.
  rewrite <- app_assoc. cbn [app].
  change ((q0 :: ?l) !!! S (S (length pre))) with (l !!! S (length pre)).
  change ((q0 :: ?l) !!! S (length pre)) with (l !!! length pre).
  by rewrite lookup_total_here, lookup_total_next.
Qed.

Lemma split_at (mid : list Z) j :
  (j < length mid)%nat -> exists pre b post, mid = pre ++ b :: post /\ j = length pre.
Proof.
  intros Hj. destruct (lookup_lt_is_Some_2 mid j Hj) as [b Hb].
  exists (take j mid), b, (drop (S j) mid). split.
  - symmetry. by apply take_drop_middle.
  - rewrite length_take. lia.
Qed.

(** The checksum comparison of [_decode] on a tampered sealed buffer. *)
Lemma sealed_flip_check a l j k :
  (j < length (a :: l))%nat -> 0 <= k < 8 ->
  exists last,
    getitem (tamper (2 ^ k) j (with_cksum (a :: l))) (-1) = Ok last /\
    (_cksum (slice (tamper (2 ^ k) j (with_cksum (a :: l))) 1 (-1)) =? last) =
    negb (flip_detected (with_cksum (a :: l)) j k).
Proof.
  intros Hj Hk.
  destruct (with_cksum_shape a l) as [[-> HQ]|(mid & x & -> & HQ)]; rewrite HQ.
  - replace j with 0%nat by (cbn [length] in Hj; lia).
    cbn [tamper]. exists (Z.lxor 0 (2 ^ k)). split; [reflexivity|].
    change (_cksum (slice [Z.lxor 0 (2 ^ k)] 1 (-1))) with 0.
    rewrite flip_detected_first. cbn [negb]. apply lxor_pow2_ne. lia.
  - cbn [length] in Hj. rewrite length_app in Hj. cbn [length] in Hj.
    destruct j as [|j'].
    + rewrite flip_detected_first. cbn [negb].
      destruct mid as [|b1 mid']; cbn [app tamper].
      * exists (Z.lxor (_cksum []) (2 ^ k)). split; [reflexivity|].
        change (_cksum (slice [Z.lxor a (2 ^ k); Z.lxor (_cksum []) (2 ^ k)] 1 (-1)))
          with 0.
        change (_cksum []) with 0. apply lxor_pow2_ne. lia.
      * exists (_cksum (b1 :: mid')).
        split; [exact (getitem_cons_snoc _ (Z.lxor b1 (2 ^ k) :: mid') _)|].
        pose proof (slice_cons_snoc (Z.lxor a (2 ^ k)) (Z.lxor b1 (2 ^ k) :: mid')
                      (_cksum (b1 :: mid'))) as Hs.
        cbn [app] in Hs. rewrite Hs.
        rewrite !_cksum_sum. cbn [zsum]. by apply flip_first_interior.
    + cbn [tamper]. destruct (decide (j' = length mid)) as [->|Hne].
      * rewrite (tamper_middle (2 ^ k) mid (_cksum mid) []).
        exists (Z.lxor (_cksum mid) (2 ^ k)). split; [apply getitem_cons_snoc|].
        rewrite slice_cons_snoc, flip_detected_last. cbn [negb].
        apply lxor_pow2_ne. lia.
      * destruct (split_at mid j' ltac:(lia)) as (pre & b & post & -> & ->).
        destruct post as [|b' post'].
        -- set (ck := _cksum (pre ++ [b])).
           assert (Ht : tamper (2 ^ k) (length pre) ((pre ++ [b]) ++ [ck])
                        = (pre ++ [Z.lxor b (2 ^ k)]) ++ [Z.lxor ck (2 ^ k)]).
           { rewrite <- app_assoc. cbn [app]. rewrite tamper_middle.
             by rewrite <- app_assoc. }
           rewrite Ht. exists (Z.lxor ck (2 ^ k)).
           split; [apply getitem_cons_snoc|].
           rewrite slice_cons_snoc, flip_detected_before_last. subst ck.
           rewrite !_cksum_sum, !zsum_app. cbn [zsum]. rewrite !Z.add_0_r.
           exact (flip_last_interior (zsum pre) b k Hk).
        -- set (ck := _cksum (pre ++ b :: b' :: post')).
           assert (Ht : tamper (2 ^ k) (length pre) ((pre ++ b :: b' :: post') ++ [ck])
                        = (pre ++ Z.lxor b (2 ^ k) :: Z.lxor b' (2 ^ k) :: post') ++ [ck]).
           { rewrite <- app_assoc. cbn [app]. rewrite tamper_middle.
             by rewrite <- app_assoc. }
           rewrite Ht. exists ck.
           split; [apply getitem_cons_snoc|].
           rewrite slice_cons_snoc, flip_detected_interior. subst ck.
           rewrite !_cksum_sum, !zsum_app. cbn [zsum].
           rewrite <- (flip_two_interior (zsum pre + zsum post') b b' k Hk).
           f_equal; f_equal; lia.
Qed.

(** C2, counterexample: the parcel that sets mode 1 has the plain buffer
    [17, 249, 1, 0, 1, 66, 1, 1, 0]; byte 7 is the payload byte. With bit 0 of
    byte 7 of the encoded buffer flipped, decoding raises no checksum error:
    it returns a buffer, and the parcel decoded from it carries payload 0. *)
Lemma payload_flip_counterexample :
  _encode [17; 249; 1; 0; 1; 66; 1; 1; 0] = Ok [178; 75; 74; 74; 75; 9; 8; 9; 54] /\
  flip_bit [178; 75; 74; 74; 75; 9; 8; 9; 54] 7 0 = [178; 75; 74; 74; 75; 9; 8; 8; 54] /\
  _decode [178; 75; 74; 74; 75; 9; 8; 8; 54] = Ok [17; 249; 1; 0; 1; 66; 1; 0; 62] /\
  PanasonicBLEParcel_parse [178; 75; 74; 74; 75; 9; 8; 8; 54] =
    Ok {| src := COMPONENT.APP; dst := COMPONENT.I_UNIT1; op := OPERATION.SET;
          packets := [PanasonicBLEPacket 66 [0]] |}.
Proof. repeat split. Qed.

(** C2, amended: for every plain buffer P of n >= 1 bytes and every flip of
    bit k of byte j of its encoded buffer, decoding fails with a checksum
    error exactly when [flip_detected] holds: always for j = 0 and for the
    checksum byte j = n - 1; for j = n - 2 (the last interior byte) when
    k < 7 and bit k of that byte differs from bit k of the checksum; for any
    other interior byte when k < 7 and bit k of bytes j and j + 1 of the
    plain buffer are equal. In every other case decoding returns the plain
    buffer with bit k of bytes j and j + 1 flipped. *)
Theorem flip_detection (P : list Z) (j : nat) (k : Z) :
  is_bytes P = true -> (j < length P)%nat -> 0 <= k < 8 ->
  exists c,
    _encode P = Ok c /\
    _decode (flip_bit c j k) =
      if flip_detected (with_cksum P) j k
      then Err (ValueError "Bad Checksum")
      else Ok (tamper (2 ^ k) j (with_cksum P)).
Proof.
  intros Hb Hj Hk. destruct P as [|a l]; [cbn in Hj; lia|].
  exists (whiten (chain 202 (with_cksum (a :: l)))). split; [by apply _encode_ok|].
  rewrite _decode_flip by (by rewrite length_with_cksum).
  destruct (sealed_flip_check a l j k Hj Hk) as (last & -> & Hc). cbn [bind].
  rewrite Hc, negb_involutive.
  destruct (flip_detected _ _ _); [done|].
  apply bytes_ok, is_bytes_Forall, Forall_tamper.
  - destruct (pow2_bit_range k Hk) as [[_ ?]|[_ ?]]; lia.
  - by apply Forall_with_cksum, is_bytes_Forall.
Qed.

Lemma flip_detection_witness :
  exists c,
    _encode [17; 249; 1; 0; 1; 66; 1; 1; 0] = Ok c /\
    _decode (flip_bit c 7 0) = Ok [17; 249; 1; 0; 1; 66; 1; 0; 62].
Proof.
  exact (flip_detection [17; 249; 1; 0; 1; 66; 1; 1; 0] 7 0 eq_refl
           ltac:(cbn; lia) ltac:(lia)).
Defined.

(** Two readings of [flip_detected]: a flip of the checksum byte is always
    noticed, a flip of the top bit of an interior byte that is not the last
    one never is. *)
Lemma flip_detected_checksum_byte (q : list Z) k :
  q <> [] -> flip_detected q (length q - 1) k = true.
Proof.
  intros _. unfold flip_detected. by rewrite Nat.eqb_refl, orb_true_r.
Qed.

Lemma flip_detected_top_bit (q : list Z) j :
  (0 < j)%nat -> (j + 2 < length q)%nat -> flip_detected q j 7 = false.
Proof.
  intros H0 Hj. unfold flip_detected.
  replace (j =? 0)%nat with false by (symmetry; apply Nat.eqb_neq; lia).
  replace (j =? length q - 1)%nat with false by (symmetry; apply Nat.eqb_neq; lia).
  replace (j =? length q - 2)%nat with false by (symmetry; apply Nat.eqb_neq; lia).
  reflexivity.
Qed.

(** ** Further properties of the obfuscation transform *)

Lemma zsum_Permutation l l' : l ≡ₚ l' -> zsum l = zsum l'.
Proof. induction 1; cbn [zsum]; lia. Qed.

Lemma slice_snoc (l : list Z) x : slice (l ++ [x]) 1 (-1) = drop 1 l.
Proof.
  destruct l as [|a l]; [reflexivity|].
  change ((a :: l) ++ [x]) with (a :: l ++ [x]). by rewrite slice_cons_snoc.
Qed.

Lemma with_cksum_snoc_eq (l : list Z) x :
  with_cksum (l ++ [x]) = l ++ [_cksum (drop 1 l)].
Proof.
  unfold with_cksum. rewrite slice_snoc, length_app. cbn [length].
  replace (length l + 1 - 1)%nat with (length l + 0)%nat by lia.
  by rewrite insert_app_r.
Qed.

Lemma chain_unchain l : forall p, chain p (unchain p l) = l.
Proof.
  induction l as [|b l IH]; intros p; cbn [unchain chain]; [done|].
  by rewrite xor_xor, IH.
Qed.

Lemma obfuscated_deobfuscated l : obfuscated (deobfuscated l) = l.
Proof. unfold obfuscated, deobfuscated. by rewrite chain_unchain, whiten_whiten. Qed.

Lemma is_bytes_obfuscated l : is_bytes l = true -> is_bytes (obfuscated l) = true.
Proof.
  rewrite !is_bytes_Forall. intros H. apply Forall_whiten, Forall_chain; [lia|done].
Qed.

Lemma length_obfuscated l : length (obfuscated l) = length l.
Proof. unfold obfuscated. by rewrite length_whiten, length_chain. Qed.

Lemma is_bytes_sealed (body : list Z) :
  is_bytes body = true -> is_bytes (body ++ [_cksum (drop 1 body)]) = true.
Proof.
  intros Hb. rewrite is_bytes_app, Hb. cbn [is_bytes forallb andb].
  rewrite andb_true_r. apply is_byte_spec, _cksum_byte.
Qed.

(** [_encode] and [_decode] on a buffer whose last byte is set apart. *)
Lemma _encode_snoc (body : list Z) x :
  is_bytes body = true ->
  _encode (body ++ [x]) = Ok (obfuscated (body ++ [_cksum (drop 1 body)])).
Proof.
  intros Hb.
  assert (Hc : exists a l, body ++ [x] = a :: l)
    by (destruct body; cbn [app]; eauto).
  destruct Hc as (a & l & E).
  rewrite E, _encode_cons, <- E, with_cksum_snoc_eq.
  by apply bytes_ok, is_bytes_obfuscated, is_bytes_sealed.
Qed.

Lemma _decode_sealed (body : list Z) :
  is_bytes body = true ->
  _decode (obfuscated (body ++ [_cksum (drop 1 body)]))
  = Ok (body ++ [_cksum (drop 1 body)]).
Proof.
  intros Hb. set (ck := _cksum (drop 1 body)).
  assert (Hc : exists a l, body ++ [ck] = a :: l)
    by (destruct body; cbn [app]; eauto).
  destruct Hc as (a & l & E).
  unfold obfuscated. rewrite E, _decode_obfuscated, <- E.
  rewrite getitem_last. cbn [bind]. rewrite slice_snoc. fold ck.
  rewrite Z.eqb_refl. cbn [negb].
  by apply bytes_ok, is_bytes_sealed.
Qed.

Lemma _decode_inv c q :
  _decode c = Ok q ->
  q = deobfuscated c /\ is_bytes q = true /\ with_cksum q = q /\ c <> [].
Proof.
  destruct c as [|a l]; [done|]. rewrite _decode_cons.
  set (d := deobfuscated (a :: l)).
  destruct (getitem d (-1)) as [last|] eqn:Hl; [|done]. cbn [bind].
  destruct (Z.eqb_spec (_cksum (slice d 1 (-1))) last) as [Hck|]; [|done].
  cbn [negb]. intros Hq. apply bytes_inv in Hq as [-> Hq].
  repeat split; try done.
  unfold with_cksum. rewrite Hck. apply list_insert_id.
  assert (Hlen : length d = S (length l))
    by (unfold d, deobfuscated; by rewrite length_unchain, length_whiten).
  unfold getitem in Hl. rewrite Hlen, norm_index_last in Hl.
  injection Hl as <-. rewrite Hlen.
  replace (S (length l) - 1)%nat with (length l) by lia.
  apply list_lookup_lookup_total_lt. lia.
Qed.

(** X1: the checksum of any list of integers is their sum modulo 256, so it
    is a byte; the checksum of a concatenation is the sum of the checksums
    modulo 256. *)
Theorem cksum_sum_mod_256 (l1 l2 : list Z) :
  _cksum l1 = zsum l1 mod 256 /\
  0 <= _cksum l1 < 256 /\
  _cksum (l1 ++ l2) = (_cksum l1 + _cksum l2) mod 256.
Proof.
  split; [apply _cksum_sum|]. split; [apply _cksum_byte|].
  rewrite !_cksum_sum, zsum_app. by rewrite <- Z.add_mod by lia.
Qed.

(** X2: the checksum does not depend on the order of the bytes: two
    buffers that are permutations of one another have the same checksum. *)
Theorem cksum_permutation (l l' : list Z) :
  l ≡ₚ l' -> _cksum l = _cksum l'.
Proof. intros H. by rewrite !_cksum_sum, (zsum_Permutation _ _ H). Qed.

Lemma cksum_permutation_witness : _cksum [1; 200; 77] = _cksum [77; 1; 200].
Proof.
  apply (cksum_permutation [1; 200; 77] [77; 1; 200]).
  change [77; 1; 200] with ([77] ++ [1; 200]).
  change [1; 200; 77] with ([1; 200] ++ [77]).
  apply Permutation_app_comm.
Defined.

(** X3: [_encode] followed by [_decode] is the identity up to the last
    byte. For a buffer made of bytes [body] and one more element [x],
    whatever [x] is, [_encode] returns a buffer of bytes of the same
    length, and [_decode] of it returns [body] followed by the checksum of
    [body] without its first byte: the last element of the input is a
    placeholder that is never read. *)
Theorem encode_then_decode (body : list Z) (x : Z) :
  is_bytes body = true ->
  exists c,
    _encode (body ++ [x]) = Ok c /\
    length c = length (body ++ [x]) /\
    is_bytes c = true /\
    _decode c = Ok (body ++ [_cksum (drop 1 body)]).
Proof.
  intros Hb. eexists. split; [by apply _encode_snoc|].
  split; [by rewrite length_obfuscated, !length_app|].
  split; [|by apply _decode_sealed].
  by apply is_bytes_obfuscated, is_bytes_sealed.
Qed.

Lemma encode_then_decode_witness :
  exists c,
    _encode ([17; 249; 1] ++ [-5]) = Ok c /\
    length c = length ([17; 249; 1] ++ [-5]) /\
    is_bytes c = true /\
    _decode c = Ok ([17; 249; 1] ++ [_cksum (drop 1 [17; 249; 1])]).
Proof. exact (encode_then_decode [17; 249; 1] (-5) eq_refl). Defined.

(** X4: [_decode] followed by [_encode] is the identity. Whatever buffer
    [_decode] accepts, the data it returns has the same length, is made of
    bytes, and [_encode] maps it back to the buffer; so two different
    buffers never decode to the same data. *)
Theorem decode_then_encode (c q : list Z) :
  _decode c = Ok q ->
  _encode q = Ok c /\ length q = length c /\ is_bytes c = true /\
  (forall c', _decode c' = Ok q -> c' = c).
Proof.
  intros H. destruct (_decode_inv _ _ H) as (Hq & Hb & Hck & Hne).
  assert (Hc : c = obfuscated q) by (by rewrite Hq, obfuscated_deobfuscated).
  assert (Hlen : length q = length c)
    by (rewrite Hq; unfold deobfuscated; by rewrite length_unchain, length_whiten).
  assert (Hbc : is_bytes c = true) by (rewrite Hc; by apply is_bytes_obfuscated).
  repeat split; try done.
  - destruct q as [|a l]; [by destruct c|].
    rewrite _encode_cons, Hck. fold (obfuscated (a :: l)). rewrite <- Hc.
    by apply bytes_ok.
  - intros c' H'. destruct (_decode_inv _ _ H') as (Hq' & _).
    by rewrite Hc, Hq', obfuscated_deobfuscated.
Qed.

Lemma decode_then_encode_witness :
  _encode [163; 0] = Ok [0; 0] /\ length [163; 0] = length [0; 0] /\
  is_bytes [0; 0] = true /\
  (forall c', _decode c' = Ok [163; 0] -> c' = [0; 0]).
Proof. exact (decode_then_encode [0; 0] [163; 0] eq_refl). Defined.

(** ** Enumerations: lookup by value and by name *)

Ltac enum_by_value :=
  cbv [MODE.of_value MODE.members FANSPEED.of_value FANSPEED.members
       COMPONENT.of_value COMPONENT.members OPERATION.of_value OPERATION.members
       find MODE.value FANSPEED.value COMPONENT.value OPERATION.value];
  repeat match goal with
         | |- context [?a =? ?v] => destruct (Z.eqb_spec a v)
         end.

Ltac enum_by_name :=
  cbv [MODE.of_name MODE.members FANSPEED.of_name FANSPEED.members
       COMPONENT.of_name COMPONENT.members OPERATION.of_name OPERATION.members
       find MODE.name FANSPEED.name COMPONENT.name OPERATION.name];
  repeat match goal with
         | |- context [String.eqb ?a ?n] => destruct (String.eqb_spec a n)
         end.

Lemma MODE_of_value_iff v m : MODE.of_value v = Ok m <-> MODE.value m = v.
Proof.
  split; [|intros <-; by destruct m].
  enum_by_value; try discriminate; by intros [= <-].
Qed.

Lemma FANSPEED_of_value_iff v f : FANSPEED.of_value v = Ok f <-> FANSPEED.value f = v.
Proof.
  split; [|intros <-; by destruct f].
  enum_by_value; try discriminate; by intros [= <-].
Qed.

Lemma COMPONENT_of_value_iff v c : COMPONENT.of_value v = Ok c <-> COMPONENT.value c = v.
Proof.
  split; [|intros <-; by destruct c].
  enum_by_value; try discriminate; by intros [= <-].
Qed.

Lemma OPERATION_of_value_iff v o : OPERATION.of_value v = Ok o <-> OPERATION.value o = v.
Proof.
  split; [|intros <-; by destruct o].
  enum_by_value; try discriminate; by intros [= <-].
Qed.

Lemma MODE_of_name_iff n m : MODE.of_name n = Ok m <-> MODE.name m = n.
Proof.
  split; [|intros <-; by destruct m].
  enum_by_name; try discriminate; by intros [= <-].
Qed.

Lemma FANSPEED_of_name_iff n f : FANSPEED.of_name n = Ok f <-> FANSPEED.name f = n.
Proof.
  split; [|intros <-; by destruct f].
  enum_by_name; try discriminate; by intros [= <-].
Qed.

Lemma COMPONENT_of_name_iff n c : COMPONENT.of_name n = Ok c <-> COMPONENT.name c = n.
Proof.
  split; [|intros <-; by destruct c].
  enum_by_name; try discriminate; by intros [= <-].
Qed.

Lemma OPERATION_of_name_iff n o : OPERATION.of_name n = Ok o <-> OPERATION.name o = n.
Proof.
  split; [|intros <-; by destruct o].
  enum_by_name; try discriminate; by intros [= <-].
Qed.

Lemma MODE_of_value_range v : is_ok (MODE.of_value v) = true <-> 1 <= v <= 5.
Proof.
  split.
  - destruct (MODE.of_value v) as [m|] eqn:E; [|done].
    apply MODE_of_value_iff in E as <-. intros _. destruct m; cbn; lia.
  - intros H. enum_by_value; try done. lia.
Qed.

Lemma FANSPEED_of_value_range v : is_ok (FANSPEED.of_value v) = true <-> 2 <= v <= 5.
Proof.
  split.
  - destruct (FANSPEED.of_value v) as [m|] eqn:E; [|done].
    apply FANSPEED_of_value_iff in E as <-. intros _. destruct m; cbn; lia.
  - intros H. enum_by_value; try done. lia.
Qed.

(** X5: lookup by value, [E(v)], for the four enumerations: it returns the
    member [m] exactly when [m] has the value [v]. No two members share a
    value, every member is found by its own value, and a value of no member
    is refused. *)
Theorem enum_of_value (v : Z) :
  (forall m, MODE.of_value v = Ok m <-> MODE.value m = v) /\
  (forall f, FANSPEED.of_value v = Ok f <-> FANSPEED.value f = v) /\
  (forall c, COMPONENT.of_value v = Ok c <-> COMPONENT.value c = v) /\
  (forall o, OPERATION.of_value v = Ok o <-> OPERATION.value o = v).
Proof.
  split; [intros; apply MODE_of_value_iff|].
  split; [intros; apply FANSPEED_of_value_iff|].
  split; [intros; apply COMPONENT_of_value_iff|intros; apply OPERATION_of_value_iff].
Qed.

Lemma enum_of_value_witness :
  COMPONENT.of_value 254 = Ok COMPONENT.BLE_MODULE_UART /\
  MODE.value MODE.dry = 4.
Proof.
  split.
  - apply (proj1 (proj2 (proj2 (enum_of_value 254)))). reflexivity.
  - apply (proj1 (enum_of_value 4)). reflexivity.
Defined.

(** X6: lookup by name, [E[n]], for the four enumerations: it returns the
    member [m] exactly when [m] has the name [n]; the names are case
    sensitive and a name of no member is refused. *)
Theorem enum_of_name (n : string) :
  (forall m, MODE.of_name n = Ok m <-> MODE.name m = n) /\
  (forall f, FANSPEED.of_name n = Ok f <-> FANSPEED.name f = n) /\
  (forall c, COMPONENT.of_name n = Ok c <-> COMPONENT.name c = n) /\
  (forall o, OPERATION.of_name n = Ok o <-> OPERATION.name o = n).
Proof.
  split; [intros; apply MODE_of_name_iff|].
  split; [intros; apply FANSPEED_of_name_iff|].
  split; [intros; apply COMPONENT_of_name_iff|intros; apply OPERATION_of_name_iff].
Qed.

Lemma enum_of_name_witness :
  MODE.of_name "fan_only" = Ok MODE.fan_only /\
  OPERATION.name OPERATION.REQ_RES = "REQ_RES"%string.
Proof.
  split.
  - apply (proj1 (enum_of_name "fan_only")). reflexivity.
  - apply (proj2 (proj2 (proj2 (enum_of_name "REQ_RES")))). reflexivity.
Defined.

(** X7: the codes the status decoder accepts: a mode code is accepted
    exactly when it lies in 1..5 and a fan-speed code exactly when it lies
    in 2..5; any other integer raises [ValueError]. *)
Theorem status_codes_accepted (v : Z) :
  (if (1 <=? v) && (v <=? 5)
   then exists m, MODE.of_value v = Ok m /\ MODE.value m = v
   else MODE.of_value v = Err (ValueError "not a valid MODE")) /\
  (if (2 <=? v) && (v <=? 5)
   then exists f, FANSPEED.of_value v = Ok f /\ FANSPEED.value f = v
   else FANSPEED.of_value v = Err (ValueError "not a valid FANSPEED")).
Proof.
  split.
  - destruct (Z.leb_spec 1 v); cbn [andb]; [destruct (Z.leb_spec v 5)|].
    + pose proof (proj2 (MODE_of_value_range v) ltac:(lia)) as Hok.
      destruct (MODE.of_value v) as [m|] eqn:E; [|done].
      exists m. split; [done|]. by apply MODE_of_value_iff.
    + enum_by_value; (done || lia).
    + enum_by_value; (done || lia).
  - destruct (Z.leb_spec 2 v); cbn [andb]; [destruct (Z.leb_spec v 5)|].
    + pose proof (proj2 (FANSPEED_of_value_range v) ltac:(lia)) as Hok.
      destruct (FANSPEED.of_value v) as [m|] eqn:E; [|done].
      exists m. split; [done|]. by apply FANSPEED_of_value_iff.
    + enum_by_value; (done || lia).
    + enum_by_value; (done || lia).
Qed.

(** ** Further properties of the packet codec *)

Lemma PanasonicBLEPacket_encode_eq p :
  PanasonicBLEPacket_encode p =
  if is_byte (ptype p) && (Z.of_nat (length (pdata p)) <=? 255)
  then Ok (packet_wire p) else Err OverflowError.
Proof.
  unfold PanasonicBLEPacket_encode, to_bytes, packet_wire.
  destruct (is_byte (ptype p)); cbn [bind andb]; [|done].
  unfold is_byte. zbool; done.
Qed.

Lemma PanasonicBLEPacket_parse_short (fd : BytesIO) :
  (length fd < 2)%nat -> PanasonicBLEPacket_parse fd = Err IndexError.
Proof.
  destruct fd as [|t [|L tail]]; cbn [length]; try lia; intros _; [done|].
  unfold PanasonicBLEPacket_parse. by rewrite read_byte_cons.
Qed.

Lemma parse_packets_length n : forall (fd : BytesIO) ps rest,
  parse_packets n fd = Ok (ps, rest) ->
  length ps = n /\ exists consumed, fd = consumed ++ rest.
Proof.
  induction n as [|n IH]; intros fd ps rest; cbn [parse_packets].
  - intros [= <- <-]. split; [done|]. by exists [].
  - destruct (PanasonicBLEPacket_parse fd) as [[p fd1]|] eqn:E1; [|done].
    cbn [bind].
    destruct (parse_packets n fd1) as [[ps1 fd2]|] eqn:E2; [|done].
    cbn [bind]. intros [= <- <-].
    destruct (IH _ _ _ E2) as [Hl [c2 Hc2]].
    split; [by cbn [length]; rewrite Hl|].
    destruct fd as [|t [|L tail]];
      [by rewrite PanasonicBLEPacket_parse_short in E1 by (cbn; lia)
      |by rewrite PanasonicBLEPacket_parse_short in E1 by (cbn; lia)|].
    destruct (PanasonicBLEPacket_parse_view _ _ _ _ _ E1) as (_ & _ & ->).
    exists (t :: L :: take (Z.to_nat L) tail ++ c2).
    cbn [app]. rewrite <- app_assoc, <- Hc2. by rewrite take_drop.
Qed.

(** X8: [packet.encode()] writes the type byte, the length byte and the
    payload when the type fits a byte and the payload has at most 255
    bytes, and raises [OverflowError] otherwise; a payload is never
    truncated to fit, and the output has 2 bytes more than the payload. *)
Theorem packet_encode_overflow (p : Packet) :
  PanasonicBLEPacket_encode p =
    (if is_byte (ptype p) && (Z.of_nat (length (pdata p)) <=? 255)
     then Ok (ptype p :: Z.of_nat (length (pdata p)) :: pdata p)
     else Err OverflowError) /\
  (forall w, PanasonicBLEPacket_encode p = Ok w ->
     length w = (2 + length (pdata p))%nat).
Proof.
  split; [apply PanasonicBLEPacket_encode_eq|].
  intros w. rewrite PanasonicBLEPacket_encode_eq.
  destruct (_ && _); [|done]. by intros [= <-].
Qed.

Lemma packet_encode_overflow_witness :
  length ([66; 1; 7] : list Z) = S (S (length (pdata (PanasonicBLEPacket 66 [7])))).
Proof.
  exact (proj2 (packet_encode_overflow (PanasonicBLEPacket 66 [7])) [66; 1; 7] eq_refl).
Defined.

(** X9: decoding a packet and encoding it again gives back the bytes that
    were consumed. When the stream is made of bytes and holds the whole
    payload its length byte declares, the packet decoded from it is
    encodable, and its encoding followed by the rest of the stream is the
    stream. *)
Theorem packet_parse_then_encode (fd : BytesIO) (p : Packet) (rest : BytesIO) :
  is_bytes fd = true ->
  (2 + Z.to_nat (fd !!! 1%nat) <= length fd)%nat ->
  PanasonicBLEPacket_parse fd = Ok (p, rest) ->
  exists w, PanasonicBLEPacket_encode p = Ok w /\ fd = w ++ rest.
Proof.
  intros Hb Hlen Hp.
  destruct fd as [|t [|L tail]];
    [by rewrite PanasonicBLEPacket_parse_short in Hp by (cbn; lia)
    |by rewrite PanasonicBLEPacket_parse_short in Hp by (cbn; lia)|].
  destruct (PanasonicBLEPacket_parse_view _ _ _ _ _ Hp) as (Ht & Hd & ->).
  change ((t :: L :: tail) !!! 1%nat) with L in Hlen. cbn [length] in Hlen.
  apply is_bytes_Forall in Hb.
  apply Forall_cons in Hb as [Hbt Hb]. apply Forall_cons in Hb as [HbL Hb].
  cbn beta in Hbt, HbL.
  assert (Hn : length (pdata p) = Z.to_nat L) by (rewrite Hd, length_take; lia).
  rewrite PanasonicBLEPacket_encode_eq, Ht, Hn, Z2Nat.id by lia.
  replace (is_byte t) with true by (symmetry; by apply is_byte_spec).
  replace (L <=? 255) with true by (symmetry; apply Z.leb_le; lia).
  cbn [andb]. eexists. split; [done|].
  unfold packet_wire. rewrite Ht, Hn, Z2Nat.id, Hd by lia.
  cbn [app]. by rewrite take_drop.
Qed.

Lemma packet_parse_then_encode_witness :
  exists w, PanasonicBLEPacket_encode (PanasonicBLEPacket 66 [1]) = Ok w /\
            [66; 1; 1; 84; 1; 0] = w ++ [84; 1; 0].
Proof.
  apply (packet_parse_then_encode [66; 1; 1; 84; 1; 0]);
    [reflexivity | cbn; lia | reflexivity].
Defined.

(** ** Further properties of the status decoder *)

Lemma code_bits (b : Z) : 0 <= b < 256 -> Z.land (Z.shiftr b 5) 7 = b / 32.
Proof.
  intros H. rewrite Z.shiftr_div_pow2 by lia.
  change 7 with (Z.ones 3). rewrite Z.land_ones by lia.
  change (2 ^ 5) with 32. change (2 ^ 3) with 8.
  apply Z.mod_small. Z.div_mod_to_equations. lia.
Qed.

Lemma power_bit (b : Z) : Z.land b 1 = b mod 2.
Proof. change 1 with (Z.ones 1). by rewrite Z.land_ones. Qed.

Lemma status_payload_ok_range d :
  is_bytes d = true ->
  status_payload_ok d = true <->
  (6 <= length d)%nat /\ 32 <= d !!! 0%nat < 192 /\ 64 <= d !!! 1%nat < 192.
Proof.
  intros Hb. unfold status_payload_ok.
  rewrite !andb_true_iff, Z.leb_le, MODE_of_value_range, FANSPEED_of_value_range.
  split.
  - intros [[Hlen Hm] Hf].
    assert (H0 : 0 <= d !!! 0%nat < 256).
    { apply is_bytes_Forall in Hb. rewrite Forall_lookup in Hb.
      apply (Hb 0%nat). apply list_lookup_lookup_total_lt. lia. }
    assert (H1 : 0 <= d !!! 1%nat < 256).
    { apply is_bytes_Forall in Hb. rewrite Forall_lookup in Hb.
      apply (Hb 1%nat). apply list_lookup_lookup_total_lt. lia. }
    rewrite code_bits in Hm, Hf by done.
    split; [lia|]. split; Z.div_mod_to_equations; lia.
  - intros (Hlen & H0 & H1).
    rewrite !code_bits by lia.
    split; [split; [lia|]|]; Z.div_mod_to_equations; lia.
Qed.

Lemma half_degrees_range b :
  0 <= b < 256 -> (-35 <= half_degrees b /\ half_degrees b <= 185 # 2)%Q.
Proof.
  intros H. unfold half_degrees, Qle, Qdiv, Qmult, Qinv, inject_Z.
  cbn [Qnum Qden]. split; lia.
Qed.

(** X10: the payloads the status decoder accepts. For a payload made of
    bytes, [PanasonicBLEPacketStatus(ptype, pdata)] returns a packet exactly
    when the payload has at least 6 bytes, byte 0 lies in 32..191 (mode code
    1..5 in its top three bits) and byte 1 lies in 64..191 (fan-speed code
    2..5 in its top three bits); it raises otherwise. *)
Theorem status_payload_accepted (t : Z) (d : list Z) :
  is_bytes d = true ->
  is_ok (PanasonicBLEPacketStatus_init t d) = true <->
  (6 <= length d)%nat /\ 32 <= d !!! 0%nat < 192 /\ 64 <= d !!! 1%nat < 192.
Proof.
  intros Hb. rewrite <- (status_payload_ok_range d Hb). split.
  - destruct (PanasonicBLEPacketStatus_init t d) as [p|] eqn:E; [|done].
    intros _. by apply (PanasonicBLEPacketStatus_init_inv t d p).
  - intros H. by destruct (PanasonicBLEPacketStatus_init_ok t d H) as [f ->].
Qed.

Lemma status_payload_accepted_witness :
  is_ok (PanasonicBLEPacketStatus_init 129 [32; 64; 0; 0; 110; 0]) = true.
Proof.
  apply (status_payload_accepted 129 [32; 64; 0; 0; 110; 0]); [reflexivity|].
  cbn. lia.
Defined.

(** X11: what the status decoder reads. When it accepts a payload made of
    bytes, the packet keeps the type and the payload, and: the power flag
    is byte 0 modulo 2; the mode and fan-speed members have the codes
    byte 0 / 32 and byte 1 / 32; the set temperature is (byte 4 - 70) / 2,
    between -35 and 92.5; the power-save byte is the sixth byte from the
    end; the room temperature is (byte 5 - 70) / 2 when the payload has
    more than 12 bytes and 0 otherwise. *)
Theorem status_fields_decoded (t : Z) (d : list Z) (p : Packet) :
  is_bytes d = true ->
  PanasonicBLEPacketStatus_init t d = Ok p ->
  exists f,
    p = PanasonicBLEPacketStatus t d f /\
    power f = (d !!! 0%nat) mod 2 /\
    MODE.value (mode f) = (d !!! 0%nat) / 32 /\
    FANSPEED.value (fanspeed f) = (d !!! 1%nat) / 32 /\
    temp f = half_degrees (d !!! 4%nat) /\
    (-35 <= temp f /\ temp f <= 185 # 2)%Q /\
    powersave f = d !!! (length d - 6)%nat /\
    curtemp f = (if 12 <? Z.of_nat (length d) then half_degrees (d !!! 5%nat) else 0%Q).
Proof.
  intros Hb Hp.
  pose proof (PanasonicBLEPacketStatus_init_inv _ _ _ Hp) as Hok.
  apply (status_payload_ok_range d Hb) in Hok as (Hlen & H0 & H1).
  assert (H4 : 0 <= d !!! 4%nat < 256).
  { apply is_bytes_Forall in Hb. rewrite Forall_lookup in Hb.
    apply (Hb 4%nat). apply list_lookup_lookup_total_lt. lia. }
  revert Hp. unfold PanasonicBLEPacketStatus_init.
  rewrite (getitem_at d 0) by lia. cbn [bind]. change (Z.to_nat 0) with 0%nat.
  destruct (MODE.of_value _) as [m|] eqn:Em; [|done]. cbn [bind].
  rewrite (getitem_at d 4) by lia. cbn [bind]. change (Z.to_nat 4) with 4%nat.
  rewrite (getitem_at d 1) by lia. cbn [bind]. change (Z.to_nat 1) with 1%nat.
  destruct (FANSPEED.of_value _) as [fs|] eqn:Ef; [|done]. cbn [bind].
  change (-6) with (- (6)). rewrite (getitem_from_end d 6) by lia. cbn [bind].
  apply MODE_of_value_iff in Em. apply FANSPEED_of_value_iff in Ef.
  rewrite code_bits in Em, Ef by lia.
  replace (Z.to_nat (Z.of_nat (length d) - 6)) with (length d - 6)%nat by lia.
  destruct (12 <? Z.of_nat (length d)) eqn:E.
  - apply Z.ltb_lt in E. rewrite (getitem_at d 5) by lia. cbn [bind].
    change (Z.to_nat 5) with 5%nat.
    intros [= <-]. eexists. split; [done|]. cbn [power mode fanspeed temp powersave curtemp].
    rewrite power_bit. repeat split; try done; by apply half_degrees_range.
  - cbn [bind]. intros [= <-]. eexists. split; [done|].
    cbn [power mode fanspeed temp powersave curtemp].
    rewrite power_bit. repeat split; try done; by apply half_degrees_range.
Qed.

Lemma status_fields_decoded_witness :
  exists f,
    PanasonicBLEPacketStatus_init 129 [33; 96; 0; 0; 99; 101; 0; 0; 0; 0; 0; 1; 0]
    = Ok (PanasonicBLEPacketStatus 129 [33; 96; 0; 0; 99; 101; 0; 0; 0; 0; 0; 1; 0] f) /\
    power f = 1 /\ MODE.value (mode f) = 1 /\ FANSPEED.value (fanspeed f) = 3 /\
    temp f = half_degrees 99 /\ powersave f = 0 /\ curtemp f = half_degrees 101.
Proof.
  destruct (status_fields_decoded 129 [33; 96; 0; 0; 99; 101; 0; 0; 0; 0; 0; 1; 0] _
              eq_refl eq_refl) as (f & Hp & H1 & H2 & H3 & H4 & _ & H5 & H6).
  exists f. split; [by rewrite <- Hp|]. repeat split; assumption.
Defined.

(** ** Temperature encoding *)

(** *** A finite float is determined by its value *)

Lemma digits2_size m : digits2_pos m = Pos.size m.
Proof. induction m as [m IH|m IH|]; cbn [digits2_pos Pos.size]; by rewrite ?IH. Qed.

Lemma digits2_log2 m : Z.pos (digits2_pos m) = Z.log2 (Z.pos m) + 1.
Proof. rewrite digits2_size. destruct m; cbn [Z.log2 Pos.size]; lia. Qed.

Lemma bounded_exponent m e :
  bounded 53 1024 m e = true ->
  e = Z.max (Z.log2 (Z.pos m) + 1 + e - 53) (-1074).
Proof.
  unfold bounded, canonical_mantissa, fexp, SpecFloat.emin.
  rewrite andb_true_iff, Z.eqb_eq, digits2_log2. lia.
Qed.

Lemma scaled_eq (M1 M2 e1 e2 : Z) :
  e1 <= e2 ->
  (inject_Z M1 * 2 ^ e1 == inject_Z M2 * 2 ^ e2)%Q ->
  M1 = M2 * 2 ^ (e2 - e1).
Proof.
  intros He H. apply inject_Z_injective.
  assert (H2 : ~ (2 == 0)%Q) by done.
  apply (Qmult_inj_r _ _ (2 ^ e1)%Q (Qpower_not_0 2 e1 H2)).
  rewrite H, inject_Z_mult, Zpower_Qpower by lia.
  replace e2 with ((e2 - e1) + e1) at 1 by lia.
  rewrite Qpower_plus by done. by rewrite Qmult_assoc.
Qed.

Lemma finite_float_unique_le s1 m1 e1 s2 m2 e2 :
  e1 <= e2 ->
  bounded 53 1024 m1 e1 = true -> bounded 53 1024 m2 e2 = true ->
  (inject_Z (cond_Zopp s1 (Z.pos m1)) * 2 ^ e1
   == inject_Z (cond_Zopp s2 (Z.pos m2)) * 2 ^ e2)%Q ->
  S754_finite s1 m1 e1 = S754_finite s2 m2 e2.
Proof.
  intros He Hb1 Hb2 Hv. apply (scaled_eq _ _ _ _ He) in Hv.
  apply bounded_exponent in Hb1, Hb2.
  assert (Hp : 0 < 2 ^ (e2 - e1)) by (apply Z.pow_pos_nonneg; lia).
  assert (Ha : Z.pos m1 = Z.pos m2 * 2 ^ (e2 - e1)).
  { apply (f_equal Z.abs) in Hv. rewrite Z.abs_mul in Hv.
    rewrite (Z.abs_eq (2 ^ _)) in Hv by lia.
    by destruct s1, s2. }
  assert (Hl : Z.log2 (Z.pos m1) = e2 - e1 + Z.log2 (Z.pos m2)).
  { rewrite Ha. apply Z.log2_mul_pow2; lia. }
  assert (e1 = e2) by lia. subst e2.
  rewrite Z.sub_diag, Z.mul_1_r in Hv. 
  destruct s1, s2; cbn [cond_Zopp Z.opp] in Hv; try discriminate;
    by injection Hv as ->.
Qed.

Lemma finite_float_unique s1 m1 e1 s2 m2 e2 :
  bounded 53 1024 m1 e1 = true -> bounded 53 1024 m2 e2 = true ->
  (inject_Z (cond_Zopp s1 (Z.pos m1)) * 2 ^ e1
   == inject_Z (cond_Zopp s2 (Z.pos m2)) * 2 ^ e2)%Q ->
  S754_finite s1 m1 e1 = S754_finite s2 m2 e2.
Proof.
  intros Hb1 Hb2 Hv. destruct (Z.le_ge_cases e1 e2).
  - by apply finite_float_unique_le.
  - symmetry. by apply finite_float_unique_le.
Qed.

(** *** Half degrees *)

(** The integer the command computes from the float [temp]. *)
Lemma PanasonicBLETemp_byte (t : float) b :
  py_int (float_add (float_mul t (float_of_int 2)) (float_of_int 70)) = Ok b ->
  is_byte b = true ->
  PanasonicBLETemp t =
    Ok {| src := COMPONENT.APP; dst := COMPONENT.I_UNIT1; op := OPERATION.SET;
          packets := [PanasonicBLEPacket 76 [9; 0; b; 0]] |}.
Proof.
  intros Hi Hb. unfold PanasonicBLETemp, bytes. rewrite Hi. cbn [bind].
  cbn [is_bytes forallb]. rewrite Hb. reflexivity.
Qed.

Lemma half_degree_checked_all :
  forallb half_degree_checked (map (fun i => Z.of_nat i - 70) (seq 0 256)) = true.
Proof. vm_compute. reflexivity. Qed.

Lemma half_degree_checked_range h : -70 <= h < 186 -> half_degree_checked h = true.
Proof.
  intros Hh. pose proof half_degree_checked_all as H.
  rewrite forallb_forall in H. apply H.
  apply in_map_iff. exists (Z.to_nat (h + 70)). split; [lia|].
  apply in_seq. lia.
Qed.

Lemma float_is_half_degree (t : float) (h : Z) :
  is_float t = true -> float_is t (h # 2) = true -> -70 <= h < 186 ->
  match t with S754_zero _ => h = 0 | _ => t = half_degree_float h end.
Proof.
  intros Hf Hv Hh. pose proof (half_degree_checked_range h Hh) as Hc.
  unfold half_degree_checked in Hc. rewrite !andb_true_iff in Hc.
  destruct Hc as [[Hc1 Hc2] _].
  unfold float_is in Hv, Hc2.
  destruct t as [s|s| |s m e]; cbn [float_value] in Hv; try discriminate.
  - apply Qeq_bool_eq in Hv. unfold Qeq in Hv. cbn [Qnum Qden] in Hv. lia.
  - apply Qeq_bool_eq in Hv.
    destruct (half_degree_float h) as [s'|s'| |s' m' e']; try discriminate.
    + apply Z.eqb_eq in Hc1 as ->. exfalso.
      assert (Hz : (inject_Z (cond_Zopp s (Z.pos m)) * 2 ^ e == 0)%Q)
        by (by rewrite Hv).
      apply Qmult_integral in Hz as [Hz|Hz].
      * change 0%Q with (inject_Z 0) in Hz. apply inject_Z_injective in Hz.
        by destruct s.
      * by apply (Qpower_not_0 2 e).
    + cbn [float_value] in Hc2. apply Qeq_bool_eq in Hc2.
      apply finite_float_unique; [exact Hf|exact Hc1|]. by rewrite Hv, Hc2.
Qed.

(** The integer the command computes for a half degree. *)
Lemma half_degree_int (t : float) (h : Z) :
  is_float t = true -> float_is t (h # 2) = true -> -70 <= h < 186 ->
  py_int (float_add (float_mul t (float_of_int 2)) (float_of_int 70)) = Ok (h + 70).
Proof.
  intros Hf Hv Hh. pose proof (float_is_half_degree t h Hf Hv Hh) as Ht.
  pose proof (half_degree_checked_range h Hh) as Hc.
  unfold half_degree_checked in Hc. rewrite !andb_true_iff in Hc.
  destruct Hc as [_ Hc].
  assert (Hi : py_int (float_add (float_mul (half_degree_float h) (float_of_int 2))
                         (float_of_int 70)) = Ok (h + 70)).
  { destruct (py_int _) as [b|]; [|done]. apply Z.eqb_eq in Hc. by subst. }
  destruct t as [s|s| |s m e]; by rewrite Ht.
Qed.

(** X12: temperatures in half degrees survive the command encoding. For a
    float t that is a multiple of 0.5, t = h / 2, with -35 <= t <= 92.5,
    the set-temperature command is built with the payload
    [9, 0, h + 70, 0], and that byte, read back the way the status decoder
    reads a temperature, (b - 70) / 2, is t again. *)
Theorem temperature_encoding (t : float) (h : Z) :
  is_float t = true -> float_is t (h # 2) = true -> -70 <= h < 186 ->
  PanasonicBLETemp t =
    Ok {| src := COMPONENT.APP; dst := COMPONENT.I_UNIT1; op := OPERATION.SET;
          packets := [PanasonicBLEPacket 76 [9; 0; h + 70; 0]] |} /\
  float_is t (half_degrees (h + 70)) = true.
Proof.
  intros Hf Hv Hh. split.
  - apply PanasonicBLETemp_byte; [by apply half_degree_int|].
    apply is_byte_spec. lia.
  - unfold float_is in *. destruct (float_value t) as [v|]; [|done].
    apply Qeq_bool_iff. apply Qeq_bool_eq in Hv. rewrite Hv.
    unfold half_degrees, Qeq, Qdiv, Qmult, Qinv, inject_Z. cbn [Qnum Qden]. lia.
Qed.

Lemma temperature_encoding_witness :
  PanasonicBLETemp (S754_finite false 6051711999279104 (-48)) =
    Ok {| src := COMPONENT.APP; dst := COMPONENT.I_UNIT1; op := OPERATION.SET;
          packets := [PanasonicBLEPacket 76 [9; 0; 43 + 70; 0]] |} /\
  float_is (S754_finite false 6051711999279104 (-48)) (half_degrees (43 + 70)) = true.
Proof.
  apply (temperature_encoding (S754_finite false 6051711999279104 (-48)) 43);
    [reflexivity | reflexivity | lia].
Defined.

(** ** Further properties of the parcel codec *)

(** Parsing a sealed buffer: the header is read off the plain bytes and the
    packets are parsed from what follows, checksum byte included. *)
Lemma PanasonicBLEParcel_parse_sealed s d o k (stream : list Z) ps rest :
  let pre := [17; COMPONENT.value s; COMPONENT.value d; OPERATION.value o;
              Z.of_nat k] ++ stream in
  is_bytes pre = true ->
  parse_packets k (stream ++ [_cksum (drop 1 pre)]) = Ok (ps, rest) ->
  PanasonicBLEParcel_parse (obfuscated (pre ++ [_cksum (drop 1 pre)]))
  = Ok {| src := s; dst := d; op := o; packets := ps |}.
Proof.
  cbv zeta. intros Hb Hp. unfold PanasonicBLEParcel_parse.
  rewrite (_decode_sealed _ Hb). cbn [bind app].
  rewrite read_byte_cons. cbn [bind negb]. rewrite Z.eqb_refl. cbn [negb].
  rewrite read_byte_cons. cbn [bind]. rewrite COMPONENT_of_value_value. cbn [bind].
  rewrite read_byte_cons. cbn [bind]. rewrite COMPONENT_of_value_value. cbn [bind].
  rewrite read_byte_cons. cbn [bind]. rewrite OPERATION_of_value_value. cbn [bind].
  rewrite read_byte_cons. cbn [bind]. rewrite Nat2Z.id.
  cbn [app] in Hp. rewrite Hp. cbn [bind].
  unfold PanasonicBLEParcel_init.
  by rewrite !COMPONENT_of_name_name, OPERATION_of_name_name.
Qed.

Lemma generic_packet_encodable p : generic_packet p = true -> packet_encodable p = true.
Proof.
  destruct p as [t d| |]; cbn [generic_packet]; [|done|done].
  unfold packet_encodable. cbn [ptype pdata].
  rewrite !andb_true_iff. tauto.
Qed.

Lemma forallb_generic_encodable ps :
  forallb generic_packet ps = true -> forallb packet_encodable ps = true.
Proof.
  rewrite !forallb_forall. intros H x Hx. by apply generic_packet_encodable, H.
Qed.

Lemma parse_packets_generic ps : forall rest : BytesIO,
  forallb generic_packet ps = true ->
  parse_packets (length ps) (flat_map packet_wire ps ++ rest) = Ok (ps, rest).
Proof.
  induction ps as [|p ps IH]; intros rest; cbn [forallb flat_map length parse_packets];
    [done|].
  rewrite andb_true_iff. intros [Hp Hps].
  destruct p as [t d| |]; cbn [generic_packet] in Hp; [|done|done].
  rewrite !andb_true_iff in Hp. destruct Hp as [[[[_ H129] H33] _] _].
  apply negb_true_iff in H129, H33.
  unfold packet_wire at 1. cbn [ptype pdata app].
  rewrite PanasonicBLEPacket_parse_cons. cbv zeta. rewrite H129, H33, Nat2Z.id.
  rewrite <- app_assoc, take_app_length, drop_app_length. cbn [bind].
  by rewrite IH.
Qed.

Lemma generic_parcel_encode_parse p :
  generic_parcel p = true ->
  PanasonicBLEParcel_encode p
  = Ok (obfuscated
          (([17; COMPONENT.value (src p); COMPONENT.value (dst p);
             OPERATION.value (op p); Z.of_nat (length (packets p))]
            ++ flat_map packet_wire (packets p))
           ++ [_cksum (drop 1 ([17; COMPONENT.value (src p); COMPONENT.value (dst p);
                                OPERATION.value (op p); Z.of_nat (length (packets p))]
                               ++ flat_map packet_wire (packets p)))])) /\
  forall data, PanasonicBLEParcel_encode p = Ok data ->
               PanasonicBLEParcel_parse data = Ok p.
Proof.
  unfold generic_parcel. rewrite andb_true_iff. intros [Hn Hps].
  apply Z.leb_le in Hn.
  destruct (PanasonicBLEParcel_layout_ok p ltac:(lia)
              (forallb_generic_encodable _ Hps)) as [Hl Hb].
  set (pre := [17; COMPONENT.value (src p); COMPONENT.value (dst p);
               OPERATION.value (op p); Z.of_nat (length (packets p))]
              ++ flat_map packet_wire (packets p)).
  rewrite app_assoc in Hl, Hb. fold pre in Hl, Hb.
  assert (Hpre : is_bytes pre = true).
  { rewrite is_bytes_app in Hb. by apply andb_true_iff in Hb as [Hb _]. }
  assert (He : PanasonicBLEParcel_encode p
               = Ok (obfuscated (pre ++ [_cksum (drop 1 pre)]))).
  { unfold PanasonicBLEParcel_encode. rewrite Hl. cbn [bind].
    by apply _encode_snoc. }
  split; [done|]. intros data. rewrite He. intros [= <-].
  assert (Hpeq : Ok {| src := src p; dst := dst p; op := op p; packets := packets p |}
                 = Ok p) by (by destruct p).
  etrans; [|exact Hpeq].
  apply (PanasonicBLEParcel_parse_sealed (src p) (dst p) (op p) (length (packets p))
           (flat_map packet_wire (packets p)) (packets p) [_cksum (drop 1 pre)] Hpre).
  by apply parse_packets_generic.
Qed.

(** X13: exact round trip. A parcel of at most 255 packets of the base
    class, each with a type byte in 0..255 other than 129 and 33 and a
    payload of at most 255 bytes, is encoded, and parsing the encoding
    returns the very same parcel. *)
Theorem generic_parcel_roundtrip (p : PanasonicBLEParcel) :
  generic_parcel p = true ->
  exists data,
    PanasonicBLEParcel_encode p = Ok data /\ PanasonicBLEParcel_parse data = Ok p.
Proof.
  intros H. destruct (generic_parcel_encode_parse p H) as [He Hp].
  eexists. split; [exact He|]. by apply Hp.
Qed.

Lemma generic_parcel_roundtrip_witness :
  exists data,
    PanasonicBLEParcel_encode
      {| src := COMPONENT.APP; dst := COMPONENT.I_UNIT1; op := OPERATION.SET;
         packets := [PanasonicBLEPacket 66 [3]; PanasonicBLEPacket 84 [1]] |} = Ok data /\
    PanasonicBLEParcel_parse data =
      Ok {| src := COMPONENT.APP; dst := COMPONENT.I_UNIT1; op := OPERATION.SET;
            packets := [PanasonicBLEPacket 66 [3]; PanasonicBLEPacket 84 [1]] |}.
Proof.
  apply (generic_parcel_roundtrip
           {| src := COMPONENT.APP; dst := COMPONENT.I_UNIT1; op := OPERATION.SET;
              packets := [PanasonicBLEPacket 66 [3]; PanasonicBLEPacket 84 [1]] |}).
  reflexivity.
Defined.



Lemma _encode_length l out : _encode l = Ok out -> length out = length l.
Proof.
  destruct l as [|a l]; [done|]. rewrite _encode_cons. intros H.
  apply bytes_inv in H as [-> _].
  by rewrite length_whiten, length_chain, length_with_cksum.
Qed.

Lemma write_packets_inv ps : forall fd out,
  write_packets fd ps = Ok out -> out = fd ++ flat_map packet_wire ps.
Proof.
  induction ps as [|p ps IH]; intros fd out; cbn [write_packets flat_map].
  - intros [= <-]. by rewrite app_nil_r.
  - rewrite PanasonicBLEPacket_encode_eq. destruct (_ && _); [|done]. cbn [bind].
    intros H. apply IH in H. by rewrite H, <- app_assoc.
Qed.

Lemma length_flat_map_wire ps :
  length (flat_map packet_wire ps)
  = sum_list (map (fun q => (2 + length (pdata q))%nat) ps).
Proof.
  induction ps as [|p ps IH]; cbn [flat_map map sum_list sum_list_with]; [done|].
  rewrite length_app, IH. by unfold packet_wire.
Qed.

Lemma read_byte_inv (fd : BytesIO) b fd' : read_byte fd = Ok (b, fd') -> fd = b :: fd'.
Proof.
  destruct fd as [|x fd]; [done|]. rewrite read_byte_cons. by intros [= <- <-].
Qed.

(** X15: the length of an encoded parcel. Whenever [parcel.encode()]
    returns, the parcel has at most 255 packets and the buffer has 6 bytes
    (sync byte, source, destination, operation, packet count, checksum)
    plus, for every packet, 2 bytes and its payload. *)
Theorem parcel_encode_length (p : PanasonicBLEParcel) (data : list Z) :
  PanasonicBLEParcel_encode p = Ok data ->
  (length (packets p) <= 255)%nat /\
  length data
  = (6 + sum_list (map (fun q => (2 + length (pdata q))%nat) (packets p)))%nat.
Proof.
  unfold PanasonicBLEParcel_encode. rewrite PanasonicBLEParcel_layout_eq.
  unfold to_bytes at 1.
  destruct (is_byte (Z.of_nat (length (packets p)))) eqn:Hn; [|done]. cbn [bind].
  apply is_byte_spec in Hn.
  destruct (write_packets _ _) as [fd|] eqn:Hw; [|done]. cbn [bind].
  apply write_packets_inv in Hw as ->. intros He. apply _encode_length in He.
  split; [lia|]. rewrite He, !length_app, length_flat_map_wire. cbn [length]. lia.
Qed.

Lemma parcel_encode_length_witness :
  (length [PanasonicBLEPacket 76 [9; 0; 150; 0]%Z] <= 255)%nat /\
  length [178; 75; 74; 74; 75; 7; 3; 10; 10; 156; 156; 118]
  = (6 + sum_list (map (fun q => (2 + length (pdata q))%nat)
                       [PanasonicBLEPacket 76 [9; 0; 150; 0]%Z]))%nat.
Proof.
  exact (parcel_encode_length
           {| src := COMPONENT.APP; dst := COMPONENT.I_UNIT1; op := OPERATION.SET;
              packets := [PanasonicBLEPacket 76 [9; 0; 150; 0]] |}
           [178; 75; 74; 74; 75; 7; 3; 10; 10; 156; 156; 118] eq_refl).
Defined.

(** X16: what an accepted buffer holds. Whenever [PanasonicBLEParcel.parse]
    returns a parcel, the buffer deobfuscates, with a correct checksum, to
    plain bytes that start with the sync byte 17, the values of the
    parcel's source, destination and operation and the number of its
    packets, and the packets of the parcel are those parsed from the bytes
    after this header. *)
Theorem parse_sound (data : list Z) (p : PanasonicBLEParcel) :
  PanasonicBLEParcel_parse data = Ok p ->
  exists rest unread,
    _decode data
    = Ok ([17; COMPONENT.value (src p); COMPONENT.value (dst p);
           OPERATION.value (op p); Z.of_nat (length (packets p))] ++ rest) /\
    parse_packets (length (packets p)) rest = Ok (packets p, unread).
Proof.
  unfold PanasonicBLEParcel_parse.
  destruct (_decode data) as [plain|] eqn:Hd; [|done]. cbn [bind].
  destruct (_decode_inv _ _ Hd) as (_ & Hb & _ & _).
  destruct (read_byte plain) as [[x fd1]|] eqn:E1; [|done]. cbn [bind].
  apply read_byte_inv in E1 as ->.
  destruct (Z.eqb_spec x 17) as [->|]; [|done]. cbn [negb].
  destruct (read_byte fd1) as [[s fd2]|] eqn:E2; [|done]. cbn [bind].
  apply read_byte_inv in E2 as ->.
  destruct (COMPONENT.of_value s) as [cs|] eqn:Es; [|done]. cbn [bind].
  apply COMPONENT_of_value_iff in Es as <-.
  destruct (read_byte fd2) as [[d fd3]|] eqn:E3; [|done]. cbn [bind].
  apply read_byte_inv in E3 as ->.
  destruct (COMPONENT.of_value d) as [cd|] eqn:Ed; [|done]. cbn [bind].
  apply COMPONENT_of_value_iff in Ed as <-.
  destruct (read_byte fd3) as [[o fd4]|] eqn:E4; [|done]. cbn [bind].
  apply read_byte_inv in E4 as ->.
  destruct (OPERATION.of_value o) as [co|] eqn:Eo; [|done]. cbn [bind].
  apply OPERATION_of_value_iff in Eo as <-.
  destruct (read_byte fd4) as [[n fd5]|] eqn:E5; [|done]. cbn [bind].
  apply read_byte_inv in E5 as ->.
  destruct (parse_packets (Z.to_nat n) fd5) as [[ps unread]|] eqn:Ep; [|done].
  cbn [bind]. unfold PanasonicBLEParcel_init.
  rewrite !COMPONENT_of_name_name, OPERATION_of_name_name. cbn [bind].
  intros [= <-]. cbn [src dst op packets].
  destruct (parse_packets_length _ _ _ _ Ep) as [Hl _].
  assert (Hn : 0 <= n < 256).
  { apply is_bytes_Forall in Hb. do 4 apply Forall_cons in Hb as [_ Hb].
    by apply Forall_cons in Hb as [Hb _]. }
  exists fd5, unread. rewrite Hl, Z2Nat.id by lia. by split.
Qed.

Lemma parse_sound_witness :
  exists rest unread,
    _decode [178; 75; 74; 74; 75; 7; 3; 10; 10; 156; 156; 118]
    = Ok ([17; 249; 1; 0; 1] ++ rest) /\
    parse_packets 1 rest = Ok ([PanasonicBLEPacket 76 [9; 0; 150; 0]], unread).
Proof.
  exact (parse_sound [178; 75; 74; 74; 75; 7; 3; 10; 10; 156; 156; 118]
           {| src := COMPONENT.APP; dst := COMPONENT.I_UNIT1; op := OPERATION.SET;
              packets := [PanasonicBLEPacket 76 [9; 0; 150; 0]] |} eq_refl).
Defined.

(** ** Command builders and the commands of the session *)

Lemma MODE_of_name_err n e : MODE.of_name n = Err e -> e = KeyError n.
Proof. unfold MODE.of_name. destruct (find _ _); [done|]. by intros [= <-]. Qed.

Lemma write_gatt_char_ok self data :
  write_raises (_conn self) = false -> write_gatt_char self data = (written self data, Ok tt).
Proof. unfold write_gatt_char, written. intros H. rewrite H. reflexivity. Qed.

Lemma write_built_generic self builder c :
  is_connected self = true ->
  write_raises (_conn self) = false ->
  builder = Ok c ->
  generic_parcel c = true ->
  exists data,
    PanasonicBLEParcel_encode c = Ok data /\
    PanasonicBLEParcel_parse data = Ok c /\
    write_built self builder = (written self data, Ok tt).
Proof.
  intros Hc Hw -> Hg. destruct (generic_parcel_encode_parse c Hg) as [He Hp].
  eexists. split; [exact He|]. split; [by apply Hp|].
  unfold write_built, _async_write_command. rewrite Hc, He. cbn [negb].
  by apply write_gatt_char_ok.
Qed.

Lemma write_built_disconnected self builder c :
  is_connected self = false ->
  builder = Ok c ->
  write_built self builder = (self, Err (PanasonicHCException "Not Connected")).
Proof. intros Hc ->. unfold write_built, _async_write_command. by rewrite Hc. Qed.

Lemma built_generic (z : Z) (t : float) (p : PanasonicBLEParcel) :
  PanasonicBLEMode z = Ok p \/ PanasonicBLEEnergySaving z = Ok p \/
  PanasonicBLEPower z = Ok p \/ PanasonicBLEOuting z = Ok p \/
  PanasonicBLETemp t = Ok p ->
  generic_parcel p = true.
Proof.
  unfold PanasonicBLEMode, PanasonicBLEEnergySaving, PanasonicBLEPower,
    PanasonicBLEOuting, PanasonicBLETemp.
  intros H.
  assert (Hb : forall ty l, (pd <- bytes l ;;
                             PanasonicBLEParcel_init "APP" "I_UNIT1" "SET"
                               [PanasonicBLEPacket ty pd]) = Ok p \/
                            (pd <- bytes l ;;
                             PanasonicBLEParcel_init "APP" "BLE_MODULE_UART" "SET"
                               [PanasonicBLEPacket ty pd]) = Ok p ->
                is_byte ty = true -> ty <> 129 -> ty <> 33 ->
                (length l <= 5)%nat -> generic_parcel p = true).
  { intros ty l Hp Hty H129 H33 Hlen.
    destruct (bytes l) as [pd|] eqn:E; [|by destruct Hp].
    apply bytes_inv in E as [-> E]. cbn [bind] in Hp.
    assert (Hpk : packets p = [PanasonicBLEPacket ty l])
      by (destruct Hp as [Hp|Hp]; by injection Hp as <-).
    unfold generic_parcel. rewrite Hpk. cbn [length forallb generic_packet].
    rewrite Hty, E. apply Z.eqb_neq in H129, H33. rewrite H129, H33. cbn [negb andb].
    rewrite andb_true_r. apply Z.leb_le. lia. }
  destruct H as [H|[H|[H|[H|H]]]].
  - apply (Hb 66 [z]); auto; cbn [length]; lia.
  - apply (Hb 84 [z]); auto; cbn [length]; lia.
  - apply (Hb 65 [z + 2]); auto; cbn [length]; lia.
  - apply (Hb 105 [0; 0; 17; 2; z]); auto; cbn [length]; lia.
  - destruct (py_int _) as [b|]; [|done]. cbn [bind] in H.
    apply (Hb 76 [9; 0; b; 0]); auto; cbn [length]; lia.
Qed.

(** X17: the commands round-trip exactly. Whatever parcel one of the
    builders of a set-mode, energy-saving, power, outing or set-temperature
    command returns, that parcel is encoded, and parsing the encoding gives
    back the same parcel. *)
Theorem built_command_roundtrip (z : Z) (t : float) (p : PanasonicBLEParcel) :
  PanasonicBLEMode z = Ok p \/ PanasonicBLEEnergySaving z = Ok p \/
  PanasonicBLEPower z = Ok p \/ PanasonicBLEOuting z = Ok p \/
  PanasonicBLETemp t = Ok p ->
  exists data,
    PanasonicBLEParcel_encode p = Ok data /\ PanasonicBLEParcel_parse data = Ok p.
Proof.
  intros H. destruct (generic_parcel_encode_parse p (built_generic z t p H)) as [He Hp].
  eexists. split; [exact He|]. by apply Hp.
Qed.

Lemma built_command_roundtrip_witness :
  exists data,
    PanasonicBLEParcel_encode
      {| src := COMPONENT.APP; dst := COMPONENT.BLE_MODULE_UART; op := OPERATION.SET;
         packets := [PanasonicBLEPacket 105 [0; 0; 17; 2; 1]] |} = Ok data /\
    PanasonicBLEParcel_parse data =
      Ok {| src := COMPONENT.APP; dst := COMPONENT.BLE_MODULE_UART; op := OPERATION.SET;
            packets := [PanasonicBLEPacket 105 [0; 0; 17; 2; 1]] |}.
Proof.
  apply (built_command_roundtrip 1 (S754_zero false)). right. right. right. left.
  reflexivity.
Defined.

(** X18: the outcome of a write. When [_async_write_command] returns
    normally the session was connected, the command was encoded, and the
    session differs only by that one buffer appended to what was written.
    When it raises, the session is unchanged, and the error is "Not
    Connected", "Error during write" or the error of encoding the command. *)
Theorem write_command_outcome (self : PanasonicHC) (command : PanasonicBLEParcel) :
  match (_async_write_command self command).2 with
  | Ok _ =>
      is_connected self = true /\
      exists data, PanasonicBLEParcel_encode command = Ok data /\
                   (_async_write_command self command).1 = written self data
  | Err e =>
      (_async_write_command self command).1 = self /\
      (e = PanasonicHCException "Not Connected" \/
       e = PanasonicHCException "Error during write" \/
       PanasonicBLEParcel_encode command = Err e)
  end.
Proof.
  unfold _async_write_command.
  destruct (is_connected self); cbn [negb fst snd]; [|split; [done|by left]].
  destruct (PanasonicBLEParcel_encode command) as [data|e]; cbn [fst snd];
    [|split; [done|by right; right]].
  unfold write_gatt_char. destruct (write_raises (_conn self)) eqn:E; cbn [fst snd].
  - split; [done|]. right. by left.
  - split; [done|]. exists data. split; [reflexivity|].
    unfold written. by rewrite E.
Qed.

(** X19: on a session that is not connected nothing is written. The
    status request, the power and energy-saving switches and the set-mode
    command for every mode name raise "Not Connected" and leave the session
    as it was. So does the set-temperature command for every float whose
    command can be built, among them every half degree from -35 to 92.5;
    for a float whose command cannot be built it raises the error of the
    builder, and the session is as it was. *)
Theorem commands_when_disconnected (self : PanasonicHC) :
  is_connected self = false ->
  let failed := (self, Err (PanasonicHCException "Not Connected")) in
  async_get_status self = failed /\
  (forall state, async_set_power self state = failed) /\
  (forall state, async_set_energysaving self state = failed) /\
  (forall m, async_set_mode self (MODE.name m) = failed) /\
  (forall t, async_set_temperature self t =
             match PanasonicBLETemp t with
             | Ok _ => failed
             | Err e => (self, Err e)
             end) /\
  (forall t h, is_float t = true -> float_is t (h # 2) = true -> -70 <= h < 186 ->
     async_set_temperature self t = failed).
Proof.
  intros Hc. cbv zeta.
  split; [by eapply write_built_disconnected|].
  split; [intros []; by eapply write_built_disconnected|].
  split; [intros []; by eapply write_built_disconnected|].
  split; [intros []; by eapply write_built_disconnected|].
  split.
  - intros t. unfold async_set_temperature.
    destruct (PanasonicBLETemp t) eqn:E; [|done].
    by eapply write_built_disconnected.
  - intros t h Hf Hv Hh. eapply write_built_disconnected; [done|].
    apply PanasonicBLETemp_byte; [by apply (half_degree_int t h)|].
    apply is_byte_spec. lia.
Qed.

Lemma commands_when_disconnected_witness :
  let self := {| _conn := {| connected := false; write_raises := false;
                             gatt_written := [] |};
                 _on_update_callbacks := []; status := None; logged := [] |} in
  async_set_mode self "cool" = (self, Err (PanasonicHCException "Not Connected")) /\
  async_set_temperature self (S754_finite false 6051711999279104 (-48))
  = (self, Err (PanasonicHCException "Not Connected")).
Proof.
  cbv zeta.
  pose proof (commands_when_disconnected
                {| _conn := {| connected := false; write_raises := false;
                               gatt_written := [] |};
                   _on_update_callbacks := []; status := None; logged := [] |}
                eq_refl) as (_ & _ & _ & Hm & _ & Ht).
  split; [exact (Hm MODE.cool)|].
  apply (Ht (S754_finite false 6051711999279104 (-48)) 43); [reflexivity|reflexivity|lia].
Defined.

(** X20: what the switches write. On a connected session whose write does
    not fail, switching the power, switching energy saving and setting a
    mode by the name of a mode each return normally and append exactly one
    buffer; that buffer parses to the parcel from APP to I_UNIT1, operation
    SET, with the single packet: type 65 and payload [3] (on) or [2] (off)
    for power; type 84 and payload [1] or [0] for energy saving; type 66
    and the value of the mode for set-mode. *)
Theorem switch_commands_written (self : PanasonicHC) :
  is_connected self = true ->
  write_raises (_conn self) = false ->
  let cmd t d := {| src := COMPONENT.APP; dst := COMPONENT.I_UNIT1;
                    op := OPERATION.SET; packets := [PanasonicBLEPacket t d] |} in
  (forall state : bool, exists data,
     PanasonicBLEParcel_parse data = Ok (cmd 65 [if state then 3 else 2]) /\
     async_set_power self state = (written self data, Ok tt)) /\
  (forall state : bool, exists data,
     PanasonicBLEParcel_parse data = Ok (cmd 84 [if state then 1 else 0]) /\
     async_set_energysaving self state = (written self data, Ok tt)) /\
  (forall m : MODE.t, exists data,
     PanasonicBLEParcel_parse data = Ok (cmd 66 [MODE.value m]) /\
     async_set_mode self (MODE.name m) = (written self data, Ok tt)).
Proof.
  intros Hc Hw. cbv zeta.
  split; [|split].
  - intros state.
    destruct (write_built_generic self (PanasonicBLEPower (if state then 1 else 0))
                {| src := COMPONENT.APP; dst := COMPONENT.I_UNIT1; op := OPERATION.SET;
                   packets := [PanasonicBLEPacket 65 [if state then 3 else 2]] |}
                Hc Hw ltac:(by destruct state) ltac:(by destruct state))
      as (data & _ & Hp & Hr).
    by exists data.
  - intros state.
    destruct (write_built_generic self (PanasonicBLEEnergySaving (if state then 1 else 0))
                {| src := COMPONENT.APP; dst := COMPONENT.I_UNIT1; op := OPERATION.SET;
                   packets := [PanasonicBLEPacket 84 [if state then 1 else 0]] |}
                Hc Hw ltac:(by destruct state) ltac:(by destruct state))
      as (data & _ & Hp & Hr).
    by exists data.
  - intros m.
    destruct (write_built_generic self
                (m' <- MODE.of_name (MODE.name m) ;; PanasonicBLEMode (MODE.value m'))
                {| src := COMPONENT.APP; dst := COMPONENT.I_UNIT1; op := OPERATION.SET;
                   packets := [PanasonicBLEPacket 66 [MODE.value m]] |}
                Hc Hw ltac:(by destruct m) ltac:(by destruct m))
      as (data & _ & Hp & Hr).
    by exists data.
Qed.

Lemma switch_commands_written_witness :
  exists data,
    PanasonicBLEParcel_parse data =
      Ok {| src := COMPONENT.APP; dst := COMPONENT.I_UNIT1; op := OPERATION.SET;
            packets := [PanasonicBLEPacket 65 [3]] |} /\
    async_set_power fresh_session true = (written fresh_session data, Ok tt).
Proof.
  exact (proj1 (switch_commands_written fresh_session eq_refl eq_refl) true).
Defined.

(** X21: a mode name that is not the name of a mode is refused before
    anything else: [async_set_mode] raises [KeyError] with that name and
    leaves the session as it was, connected or not. *)
Theorem set_mode_unknown_name (self : PanasonicHC) (n : string) :
  (forall m, MODE.name m <> n) ->
  async_set_mode self n = (self, Err (KeyError n)).
Proof.
  intros Hn. unfold async_set_mode.
  destruct (MODE.of_name n) as [m|e] eqn:E.
  - apply MODE_of_name_iff in E. by destruct (Hn m).
  - apply MODE_of_name_err in E as ->. reflexivity.
Qed.

Lemma set_mode_unknown_name_witness :
  async_set_mode fresh_session "HEAT" = (fresh_session, Err (KeyError "HEAT")).
Proof.
  apply (set_mode_unknown_name fresh_session "HEAT"). by intros [].
Defined.

(** ** Notifications and update callbacks, continued *)

(** The loop over the callbacks from position [i] on, when the callbacks
    from there on leave the list alone. *)
Lemma run_callbacks_in_order (call : calls) fuel : forall i cbs called,
  (forall cb, In cb (drop i cbs) -> (call cb cbs).1 = cbs) ->
  (length cbs - i <= fuel)%nat ->
  run_callbacks call fuel i cbs called
  = Some (cbs, called ++ (call_in_order call cbs (drop i cbs)).1,
          (call_in_order call cbs (drop i cbs)).2).
Proof.
  induction fuel as [|fuel IH]; intros i cbs called Hq Hfuel.
  - cbn [run_callbacks]. destruct (cbs !! i) eqn:E.
    + apply lookup_lt_Some in E. lia.
    + apply lookup_ge_None in E. rewrite drop_ge by lia.
      cbn [call_in_order fst snd]. by rewrite app_nil_r.
  - cbn [run_callbacks]. destruct (cbs !! i) as [cb|] eqn:E.
    + rewrite (drop_S _ _ _ E) in Hq |- *. cbn [call_in_order].
      pose proof (Hq cb ltac:(by left)) as Hcb.
      destruct (call cb cbs) as [cbs1 [[]|e]]; cbn [fst snd] in Hcb |- *; subst cbs1.
      * rewrite IH; [|intros c Hc; apply Hq; by right|lia].
        by rewrite <- app_assoc.
      * done.
    + apply lookup_ge_None in E. rewrite drop_ge by lia.
      cbn [call_in_order fst snd]. by rewrite app_nil_r.
Qed.

Lemma call_in_order_return (call : calls) all l :
  (forall cb, In cb l -> (call cb all).2 = Ok tt) ->
  call_in_order call all l = (l, Ok tt).
Proof.
  induction l as [|cb l IH]; intros H; cbn [call_in_order]; [done|].
  rewrite (H cb ltac:(by left)), IH; [done|]. intros c Hc. apply H. by right.
Qed.

Lemma call_in_order_app (call : calls) all l1 l2 :
  call_in_order call all (l1 ++ l2)
  = match call_in_order call all l1 with
    | (called, Ok _) =>
        (called ++ (call_in_order call all l2).1, (call_in_order call all l2).2)
    | (called, Err e) => (called, Err e)
    end.
Proof.
  induction l1 as [|cb l1 IH]; cbn [app call_in_order].
  - by destruct (call_in_order call all l2).
  - destruct ((call cb all).2); [|done]. rewrite IH.
    by destruct (call_in_order call all l1) as [t [|]].
Qed.

Lemma run_callbacks_return (call : calls) fuel cbs :
  (forall cb, In cb cbs -> call cb cbs = (cbs, Ok tt)) ->
  (length cbs <= fuel)%nat ->
  run_callbacks call fuel 0 cbs [] = Some (cbs, cbs, Ok tt).
Proof.
  intros H Hfuel.
  rewrite run_callbacks_in_order; [|rewrite drop_0; intros cb Hcb; by rewrite H|lia].
  rewrite drop_0, call_in_order_return; [done|].
  intros cb Hcb. by rewrite H.
Qed.

Lemma notify_packets_all_return (call : calls) fuel ps : forall self,
  (forall cb, In cb (_on_update_callbacks self) ->
     call cb (_on_update_callbacks self) = (_on_update_callbacks self, Ok tt)) ->
  (length (_on_update_callbacks self) <= fuel)%nat ->
  notify_packets call fuel self ps
  = Some (match last_status ps with
          | Some f => set_status self (Status_of f)
          | None => self
          end, Ok tt).
Proof.
  induction ps as [|p ps IH]; intros self Hcb Hfuel; cbn [notify_packets last_status];
    [done|].
  destruct p as [t d|t d f|t d x].
  - rewrite (IH self Hcb Hfuel). by destruct (last_status ps).
  - cbn [set_status _on_update_callbacks].
    rewrite (run_callbacks_return call fuel _ Hcb Hfuel).
    change (set_callbacks _ _) with (set_status self (Status_of f)).
    rewrite (IH (set_status self (Status_of f)) Hcb Hfuel).
    by destruct (last_status ps).
  - rewrite (IH self Hcb Hfuel). by destruct (last_status ps).
Qed.

Lemma notify_packets_raises (call : calls) fuel ps : forall self t d f ps' cbs called e,
  forallb (fun p => negb (is_status p)) ps = true ->
  run_callbacks call fuel 0 (_on_update_callbacks self) [] = Some (cbs, called, Err e) ->
  notify_packets call fuel self (ps ++ PanasonicBLEPacketStatus t d f :: ps')
  = Some (set_callbacks (set_status self (Status_of f)) cbs, Err e).
Proof.
  induction ps as [|p ps IH]; intros self t d f ps' cbs called e;
    cbn [forallb app notify_packets].
  - intros _ Hcb. cbn [set_status _on_update_callbacks]. by rewrite Hcb.
  - rewrite andb_true_iff. intros [Hp Hps] Hcb.
    destruct p; try done; by eapply IH.
Qed.

Lemma list_remove_fresh same (cb : callback) l :
  same cb cb = true ->
  existsb (fun y => same y cb) l = false ->
  list_remove same cb (l ++ [cb]) = l /\
  existsb (fun y => same y cb) (l ++ [cb]) = true.
Proof.
  intros Hrefl. induction l as [|y l IH]; cbn [existsb app list_remove].
  - intros _. by rewrite Hrefl.
  - rewrite orb_false_iff. intros [Hy Hl]. rewrite Hy. cbn [orb].
    destruct (IH Hl) as [-> ->]. done.
Qed.

(** X22: a notification whose callbacks all return. When the bytes parse
    to a parcel and every registered callback returns and leaves the list
    of callbacks alone, the handler returns; the cached status afterwards
    is the snapshot of the last status packet of the parcel, or is
    unchanged when the parcel has no status packet; the only line logged is
    "Received BLE packet"; the callbacks registered are the same. *)
Theorem notification_last_status (call : calls) (fuel : nat) (self : PanasonicHC)
    (data : list Z) (parcel : PanasonicBLEParcel) :
  PanasonicBLEParcel_parse data = Ok parcel ->
  (forall cb, In cb (_on_update_callbacks self) ->
     call cb (_on_update_callbacks self) = (_on_update_callbacks self, Ok tt)) ->
  (length (_on_update_callbacks self) <= fuel)%nat ->
  exists s,
    on_notification call fuel self data = Some (s, Ok tt) /\
    status s = match last_status (packets parcel) with
               | Some f => Some (Status_of f)
               | None => status self
               end /\
    logged s = logged self ++ ["Received BLE packet"%string] /\
    _on_update_callbacks s = _on_update_callbacks self /\
    _conn s = _conn self.
Proof.
  intros Hp Hcb Hfuel. unfold on_notification, on_notification_try. rewrite Hp.
  rewrite (notify_packets_all_return call fuel (packets parcel)
             (log self "Received BLE packet") Hcb Hfuel).
  eexists. split; [reflexivity|]. by destruct (last_status (packets parcel)).
Qed.

Lemma notification_last_status_witness :
  let self := {| _conn := {| connected := true; write_raises := false; gatt_written := [] |};
                 _on_update_callbacks := [7%nat; 8%nat];
                 status := None; logged := [] |} in
  exists s,
    on_notification (fun _ l => (l, Ok tt)) 2 self
      [178; 179; 74; 78; 79; 206; 195; 226; 130; 130; 130; 225; 132; 132;
       132; 132; 132; 132; 133; 133; 82] = Some (s, Ok tt) /\
    status s = Some {| st_power := 1; st_mode := "heat"; st_powersave := 0;
                       st_curtemp := 31 # 2; st_settemp := 29 # 2;
                       st_fanspeed := "high" |} /\
    logged s = ["Received BLE packet"%string] /\
    _on_update_callbacks s = [7%nat; 8%nat].
Proof.
  cbv zeta.
  destruct (notification_last_status (fun _ l => (l, Ok tt)) 2
              {| _conn := {| connected := true; write_raises := false; gatt_written := [] |};
                 _on_update_callbacks := [7%nat; 8%nat];
                 status := None; logged := [] |}
              [178; 179; 74; 78; 79; 206; 195; 226; 130; 130; 130; 225; 132; 132;
               132; 132; 132; 132; 133; 133; 82] _ eq_refl
              ltac:(intros cb _; reflexivity) ltac:(cbn; lia))
    as (s & Hs & Hst & Hl & Hc & _).
  exists s. repeat split; assumption.
Defined.

(** X23: a notification with a callback that raises. When the bytes parse
    to a parcel with a status packet and the loop over the registered
    callbacks ends with a callback raising, the notification handler still
    returns normally; the cached status is the snapshot of the first status
    packet, the packets after it are not looked at, and "Error parsing
    packet" is logged although the bytes were parsed. *)
Theorem notification_callback_raises (call : calls) (fuel : nat) (self : PanasonicHC)
    (data : list Z) (parcel : PanasonicBLEParcel) (ps ps' : list Packet) (t : Z)
    (d : list Z) (f : StatusFields) (cbs called : list callback) (e : exn) :
  PanasonicBLEParcel_parse data = Ok parcel ->
  packets parcel = ps ++ PanasonicBLEPacketStatus t d f :: ps' ->
  forallb (fun p => negb (is_status p)) ps = true ->
  run_callbacks call fuel 0 (_on_update_callbacks self) [] = Some (cbs, called, Err e) ->
  on_notification call fuel self data
  = Some (log (set_callbacks
                 (set_status (log self "Received BLE packet") (Status_of f)) cbs)
            "Error parsing packet", Ok tt).
Proof.
  intros Hp Hps Hno Hcb. unfold on_notification, on_notification_try.
  rewrite Hp, Hps.
  by rewrite (notify_packets_raises call fuel ps (log self "Received BLE packet")
                t d f ps' cbs called e Hno Hcb).
Qed.

Lemma notification_callback_raises_witness :
  let self := {| _conn := {| connected := true; write_raises := false; gatt_written := [] |};
                 _on_update_callbacks := [7%nat];
                 status := None; logged := [] |} in
  let call : calls := fun _ l => (l, Err (ValueError "callback failed")) in
  exists f,
    on_notification call 1 self
      [178; 179; 74; 78; 79; 206; 195; 226; 130; 130; 130; 225; 132; 132;
       132; 132; 132; 132; 133; 133; 82]
    = Some (log (set_callbacks
                   (set_status (log self "Received BLE packet") (Status_of f)) [7%nat])
              "Error parsing packet", Ok tt) /\
    power f = 1 /\ mode f = MODE.heat.
Proof.
  cbv zeta. eexists. split.
  - eapply (notification_callback_raises _ _ _ _ _ [] [] 129
              [33; 96; 0; 0; 99; 101; 0; 0; 0; 0; 0; 1; 0]);
      [reflexivity | reflexivity | reflexivity | reflexivity].
  - split; reflexivity.
Defined.

(** X24: callbacks run in the order of registration, as long as no
    callback changes the list of callbacks while it runs. Then the loop
    over the callbacks of a session on which one more callback was
    registered leaves the list as it was and calls the callbacks in the
    order of the list up to the first that raises: the earlier callbacks
    first, and the new one last, and only when none of the earlier ones
    raised. *)
Theorem registered_callback_runs_last (call : calls) (fuel : nat) (self : PanasonicHC)
    (on_update : callback) :
  let old := _on_update_callbacks self in
  let cbs := _on_update_callbacks (register_update_callback self on_update) in
  (forall cb, In cb cbs -> (call cb cbs).1 = cbs) ->
  (length cbs <= fuel)%nat ->
  cbs = old ++ [on_update] /\
  run_callbacks call fuel 0 cbs []
  = Some (cbs,
          match call_in_order call cbs old with
          | (called, Ok _) => called ++ [on_update]
          | (called, Err _) => called
          end,
          match call_in_order call cbs old with
          | (_, Ok _) => match (call on_update cbs).2 with
                         | Ok _ => Ok tt
                         | Err e => Err e
                         end
          | (_, Err e) => Err e
          end).
Proof.
  cbv zeta. intros Hq Hfuel. split; [reflexivity|].
  rewrite run_callbacks_in_order; [|by rewrite drop_0|lia].
  rewrite drop_0.
  set (cbs := _on_update_callbacks (register_update_callback self on_update)) in *.
  assert (Ho : call_in_order call cbs cbs
               = call_in_order call cbs (_on_update_callbacks self ++ [on_update]))
    by reflexivity.
  rewrite Ho, call_in_order_app. cbn [call_in_order app].
  destruct (call_in_order call cbs (_on_update_callbacks self)) as [called [[]|e]];
    cbn [fst snd]; [|done].
  by destruct ((call on_update cbs).2) as [[]|e].
Qed.

Lemma registered_callback_runs_last_witness :
  let call : calls := fun cb l => (l, if (cb =? 8)%nat then Err IndexError else Ok tt) in
  run_callbacks call 3 0 [7%nat; 8%nat; 9%nat] []
  = Some ([7%nat; 8%nat; 9%nat], [7%nat; 8%nat], Err IndexError).
Proof.
  cbv zeta.
  exact (proj2 (registered_callback_runs_last
                  (fun cb l => (l, if (cb =? 8)%nat then Err IndexError else Ok tt)) 3
                  {| _conn := {| connected := true; write_raises := false;
                                 gatt_written := [] |};
                     _on_update_callbacks := [7%nat; 8%nat];
                     status := None; logged := [] |} 9%nat
                  ltac:(intros cb _; reflexivity) ltac:(cbn; lia))).
Defined.

(** X25: unregistering undoes registering. For a callback equal to itself
    and to none of the registered ones, registering and then unregistering
    it gives back the session as it was; registered twice and unregistered
    once, it is still registered once: one call of
    [unregister_update_callback] removes one registration. *)
Theorem unregister_after_register (same : callback -> callback -> bool)
    (self : PanasonicHC) (on_update : callback) :
  same on_update on_update = true ->
  existsb (fun y => same y on_update) (_on_update_callbacks self) = false ->
  unregister_update_callback same (register_update_callback self on_update) on_update
  = self /\
  unregister_update_callback same
    (register_update_callback (register_update_callback self on_update) on_update)
    on_update
  = register_update_callback self on_update.
Proof.
  intros Hrefl Hnew.
  destruct (list_remove_fresh same on_update _ Hrefl Hnew) as [Hrm Hin].
  unfold unregister_update_callback, register_update_callback.
  cbn [_on_update_callbacks _conn status logged].
  rewrite Hin, Hrm. split; [by destruct self|].
  rewrite existsb_app, Hin. cbn [orb]. do 2 f_equal.
  clear Hin Hrm. induction (_on_update_callbacks self) as [|y l IH];
    cbn [existsb app list_remove] in *.
  - by rewrite Hrefl.
  - apply orb_false_iff in Hnew as [Hy Hl]. rewrite Hy. by rewrite (IH Hl).
Qed.

Lemma unregister_after_register_witness :
  let self := {| _conn := {| connected := true; write_raises := false; gatt_written := [] |};
                 _on_update_callbacks := [7%nat; 8%nat];
                 status := None; logged := [] |} in
  unregister_update_callback Nat.eqb (register_update_callback self 9%nat) 9%nat = self /\
  unregister_update_callback Nat.eqb
    (register_update_callback (register_update_callback self 9%nat) 9%nat) 9%nat
  = register_update_callback self 9%nat.
Proof.
  cbv zeta.
  exact (unregister_after_register Nat.eqb
           {| _conn := {| connected := true; write_raises := false; gatt_written := [] |};
              _on_update_callbacks := [7%nat; 8%nat];
              status := None; logged := [] |} 9%nat eq_refl eq_refl).
Defined.

(** X30: a callback that unregisters itself makes the loop skip the next
    callback. When the first registered callback unregisters itself while
    it runs, and the later ones leave the list alone, the loop over the
    callbacks calls the first one and then goes on from the third: the
    second callback is not called for this update, although it is still
    registered afterwards. *)
Theorem unregister_during_dispatch_skips_next (call : calls)
    (same : callback -> callback -> bool) (fuel : nat) (self : PanasonicHC)
    (a b : callback) (rest : list callback) :
  _on_update_callbacks self = a :: b :: rest ->
  same a a = true ->
  call a (a :: b :: rest)
  = (_on_update_callbacks (unregister_update_callback same self a), Ok tt) ->
  (forall cb, In cb rest -> (call cb (b :: rest)).1 = b :: rest) ->
  (length rest < fuel)%nat ->
  run_callbacks call fuel 0 (_on_update_callbacks self) []
  = Some (b :: rest,
          a :: (call_in_order call (b :: rest) rest).1,
          (call_in_order call (b :: rest) rest).2).
Proof.
  intros Hcbs Hrefl Ha Hrest Hfuel.
  assert (Hun : _on_update_callbacks (unregister_update_callback same self a) = b :: rest).
  { unfold unregister_update_callback. rewrite Hcbs. cbn [existsb list_remove].
    rewrite Hrefl. reflexivity. }
  rewrite Hun in Ha. rewrite Hcbs.
  destruct fuel as [|fuel]; [lia|].
  cbn [run_callbacks lookup list_lookup]. rewrite Ha.
  rewrite run_callbacks_in_order; [done| |cbn [length]; lia].
  intros cb Hcb. by apply Hrest.
Qed.

Lemma unregister_during_dispatch_skips_next_witness :
  let call : calls :=
    fun cb l => if (cb =? 7)%nat then (list_remove Nat.eqb 7%nat l, Ok tt) else (l, Ok tt) in
  run_callbacks call 2 0 [7%nat; 8%nat; 9%nat] []
  = Some ([8%nat; 9%nat], [7%nat; 9%nat], Ok tt).
Proof.
  cbv zeta.
  exact (unregister_during_dispatch_skips_next
           (fun cb l => if (cb =? 7)%nat
                        then (list_remove Nat.eqb 7%nat l, Ok tt) else (l, Ok tt))
           Nat.eqb 2
           {| _conn := {| connected := true; write_raises := false; gatt_written := [] |};
              _on_update_callbacks := [7%nat; 8%nat; 9%nat];
              status := None; logged := [] |}
           7%nat 8%nat [9%nat] eq_refl eq_refl eq_refl
           ltac:(intros cb [<-|[]]; reflexivity) ltac:(cbn; lia)).
Defined.

(** ** Iteration over a parcel *)

Lemma PanasonicBLEParcel_next_end P i :
  (length (packets P) <= i)%nat ->
  PanasonicBLEParcel_next {| obj_parcel := P; idx := i |}
  = ({| obj_parcel := P; idx := i |}, StopIteration).
Proof.
  intros H. unfold PanasonicBLEParcel_next. cbn [obj_parcel idx].
  by destruct (Nat.leb_spec (length (packets P)) i); [|lia].
Qed.

Lemma PanasonicBLEParcel_next_yield P i :
  (i < length (packets P))%nat ->
  PanasonicBLEParcel_next {| obj_parcel := P; idx := i |}
  = ({| obj_parcel := P; idx := i + 1 |}, Yield (packets P !!! i)).
Proof.
  intros H. unfold PanasonicBLEParcel_next. cbn [obj_parcel idx].
  by destruct (Nat.leb_spec (length (packets P)) i); [lia|].
Qed.

Lemma for_next_pure {A} (f : Packet -> A -> A) P fuel : forall i acc,
  (i <= length (packets P))%nat ->
  (length (packets P) - i < fuel)%nat ->
  for_next fuel (fun pkt st => Some (st.1, f pkt st.2)) ({| obj_parcel := P; idx := i |}, acc)
  = Some ({| obj_parcel := P; idx := length (packets P) |},
          fold_left (fun a pkt => f pkt a) (drop i (packets P)) acc).
Proof.
  induction fuel as [|fuel IH]; intros i acc Hi Hfuel; [lia|].
  cbn [for_next fst snd].
  destruct (decide (i = length (packets P))) as [->|Hne].
  - rewrite PanasonicBLEParcel_next_end by lia. by rewrite drop_all.
  - rewrite PanasonicBLEParcel_next_yield by lia. cbn [fst snd].
    rewrite IH by lia.
    assert (Hl : packets P !! i = Some (packets P !!! i))
      by (apply list_lookup_lookup_total_lt; lia).
    rewrite (drop_S _ _ _ Hl). cbn [fold_left].
    by replace (i + 1)%nat with (S i) by lia.
Qed.

Lemma for_in_pure {A} (f : Packet -> A -> A) (self : ParcelObject) (acc : A) fuel :
  (length (packets (obj_parcel self)) < fuel)%nat ->
  for_in fuel (fun pkt st => Some (st.1, f pkt st.2)) (self, acc)
  = Some ({| obj_parcel := obj_parcel self; idx := length (packets (obj_parcel self)) |},
          fold_left (fun a pkt => f pkt a) (packets (obj_parcel self)) acc).
Proof.
  intros H. unfold for_in, PanasonicBLEParcel_iter. cbn [fst snd].
  rewrite for_next_pure by lia. by rewrite drop_0.
Qed.

Lemma fold_left_snoc {A B} (g : A -> B) l : forall acc,
  fold_left (fun a x => a ++ [g x]) l acc = acc ++ map g l.
Proof.
  induction l as [|x l IH]; intros acc; cbn [fold_left map]; [by rewrite app_nil_r|].
  by rewrite IH, <- app_assoc.
Qed.

(** X26: a [for] loop over a parcel visits its packets. Whatever position
    an earlier iteration left in the parcel, a loop whose body leaves the
    parcel alone ends, after one call of [__next__] more than there are
    packets; it has run its body on every packet once, in the order of
    [packets], and it leaves the position at the number of packets. *)
Theorem for_in_visits_packets {A} (f : Packet -> A -> A) (self : ParcelObject)
    (acc : A) (fuel : nat) :
  (length (packets (obj_parcel self)) < fuel)%nat ->
  for_in fuel (fun pkt st => Some (st.1, f pkt st.2)) (self, acc)
  = Some ({| obj_parcel := obj_parcel self; idx := length (packets (obj_parcel self)) |},
          fold_left (fun a pkt => f pkt a) (packets (obj_parcel self)) acc).
Proof.
  intros Hfuel. unfold for_in, PanasonicBLEParcel_iter. cbn [fst snd].
  rewrite (for_next_pure f (obj_parcel self) fuel 0 acc) by lia.
  by rewrite drop_0.
Qed.

Lemma for_in_visits_packets_witness :
  for_in 3 (fun pkt st => Some (st.1, ptype pkt :: st.2))
    ({| obj_parcel := {| src := COMPONENT.APP; dst := COMPONENT.I_UNIT1;
                         op := OPERATION.SET;
                         packets := [PanasonicBLEPacket 66 [3]; PanasonicBLEPacket 84 [1]] |};
        idx := 7 |}, [])
  = Some ({| obj_parcel := {| src := COMPONENT.APP; dst := COMPONENT.I_UNIT1;
                              op := OPERATION.SET;
                              packets := [PanasonicBLEPacket 66 [3];
                                          PanasonicBLEPacket 84 [1]] |};
             idx := 2 |}, [84; 66]).
Proof.
  apply (for_in_visits_packets (fun pkt l => ptype pkt :: l)
           {| obj_parcel := {| src := COMPONENT.APP; dst := COMPONENT.I_UNIT1;
                               op := OPERATION.SET;
                               packets := [PanasonicBLEPacket 66 [3];
                                           PanasonicBLEPacket 84 [1]] |};
              idx := 7 |} [] 3).
  cbn. lia.
Defined.

(** X27: two loops over the same parcel share one position. When the body
    of a loop over a parcel runs a second loop over the same parcel, the
    inner loop leaves the position at the end, so the outer loop stops
    after its first packet: the pairs visited are the first packet with
    every packet, not every packet with every packet. *)
Theorem nested_iteration_shares_position (self : ParcelObject) (fuel : nat)
    (p0 : Packet) (ps : list Packet) :
  packets (obj_parcel self) = p0 :: ps ->
  (length (p0 :: ps) < fuel)%nat ->
  for_in fuel
    (fun a st => for_in fuel (fun b st' => Some (st'.1, st'.2 ++ [(a, b)])) st)
    (self, [])
  = Some ({| obj_parcel := obj_parcel self; idx := length (p0 :: ps) |},
          map (fun b => (p0, b)) (p0 :: ps)).
Proof.
  intros Hps Hfuel. destruct fuel as [|fuel]; [lia|].
  unfold for_in at 1. unfold PanasonicBLEParcel_iter. cbn [for_next fst snd].
  rewrite PanasonicBLEParcel_next_yield by (rewrite Hps; cbn [length]; lia).
  rewrite (for_in_pure (fun b (l : list (Packet * Packet)) => l ++ [(packets (obj_parcel self) !!! 0%nat, b)]))
    by (cbn [obj_parcel]; rewrite Hps; lia).
  cbn [obj_parcel]. rewrite fold_left_snoc. cbn [app].
  destruct fuel as [|fuel]; [cbn [length] in Hfuel; lia|].
  cbn [for_next fst snd]. rewrite PanasonicBLEParcel_next_end by lia.
  by rewrite Hps.
Qed.

Lemma nested_iteration_shares_position_witness :
  for_in 3
    (fun a st => for_in 3 (fun b st' => Some (st'.1, st'.2 ++ [(a, b)])) st)
    ({| obj_parcel := {| src := COMPONENT.APP; dst := COMPONENT.I_UNIT1;
                         op := OPERATION.SET;
                         packets := [PanasonicBLEPacket 66 [3]; PanasonicBLEPacket 84 [1]] |};
        idx := 0 |}, [])
  = Some ({| obj_parcel := {| src := COMPONENT.APP; dst := COMPONENT.I_UNIT1;
                              op := OPERATION.SET;
                              packets := [PanasonicBLEPacket 66 [3];
                                          PanasonicBLEPacket 84 [1]] |};
             idx := 2 |},
          [(PanasonicBLEPacket 66 [3], PanasonicBLEPacket 66 [3]);
           (PanasonicBLEPacket 66 [3], PanasonicBLEPacket 84 [1])]).
Proof.
  apply (nested_iteration_shares_position
           {| obj_parcel := {| src := COMPONENT.APP; dst := COMPONENT.I_UNIT1;
                               op := OPERATION.SET;
                               packets := [PanasonicBLEPacket 66 [3];
                                           PanasonicBLEPacket 84 [1]] |};
              idx := 0 |} 3 (PanasonicBLEPacket 66 [3]) [PanasonicBLEPacket 84 [1]]);
    [reflexivity | cbn; lia].
Defined.

(** ** What the decoder does not check *)

(** X28: the outcome of [_decode] on bytes. On a non-empty buffer of bytes
    [_decode] returns the deobfuscated buffer (bytes, of the same length)
    when its last byte is the checksum of its interior, and raises
    "Bad Checksum" otherwise; no other error is possible, and nothing but
    the checksum is checked. *)
Theorem decode_outcome (c : list Z) :
  is_bytes c = true -> c <> [] ->
  let q := deobfuscated c in
  length q = length c /\ is_bytes q = true /\
  _decode c = (if _cksum (slice q 1 (-1)) =? q !!! (length c - 1)%nat
               then Ok q else Err (ValueError "Bad Checksum")).
Proof.
  intros Hb Hne. cbv zeta.
  assert (Hlen : length (deobfuscated c) = length c)
    by (unfold deobfuscated; by rewrite length_unchain, length_whiten).
  assert (Hq : is_bytes (deobfuscated c) = true).
  { apply is_bytes_Forall. apply Forall_unchain; [lia|].
    by apply Forall_whiten, is_bytes_Forall. }
  split; [done|]. split; [done|].
  destruct c as [|a l]; [done|]. rewrite _decode_cons.
  change (-1) with (- (1)) at 1.
  rewrite (getitem_from_end (deobfuscated (a :: l)) 1) by (rewrite Hlen; cbn [length]; lia).
  cbn [bind]. rewrite Hlen.
  replace (Z.to_nat (Z.of_nat (length (a :: l)) - 1)) with (length (a :: l) - 1)%nat by lia.
  destruct (_ =? _); cbn [negb]; [by apply bytes_ok|done].
Qed.

Lemma decode_outcome_witness :
  length (deobfuscated [0; 0]) = length [0; 0] /\
  is_bytes (deobfuscated [0; 0]) = true /\
  _decode [0; 0]
  = (if _cksum (slice (deobfuscated [0; 0]) 1 (-1)) =? deobfuscated [0; 0] !!! (length [0; 0] - 1)%nat
     then Ok (deobfuscated [0; 0]) else Err (ValueError "Bad Checksum")).
Proof. exact (decode_outcome [0; 0] eq_refl ltac:(discriminate)). Defined.

(** X29: the packets are parsed from a stream that still holds the
    checksum byte. A frame that declares one packet yet carries only the
    type byte of that packet, of a type other than 129 and 33, is accepted:
    the checksum byte is read as the length of the packet, and the parcel
    returned holds a packet of that type with an empty payload. *)
Theorem parse_reads_checksum_as_length (s d : COMPONENT.t) (o : OPERATION.t) (t : Z) :
  is_byte t = true -> t <> 129 -> t <> 33 ->
  exists data,
    _encode [17; COMPONENT.value s; COMPONENT.value d; OPERATION.value o; 1; t; 0]
    = Ok data /\
    PanasonicBLEParcel_parse data
    = Ok {| src := s; dst := d; op := o; packets := [PanasonicBLEPacket t []] |}.
Proof.
  intros Ht H129 H33.
  set (pre := [17; COMPONENT.value s; COMPONENT.value d; OPERATION.value o; 1; t]).
  assert (Hpre : is_bytes pre = true).
  { unfold pre. cbn [is_bytes forallb]. rewrite Ht.
    by destruct s, d, o. }
  exists (obfuscated (pre ++ [_cksum (drop 1 pre)])). split.
  - exact (_encode_snoc pre 0 Hpre).
  - apply (PanasonicBLEParcel_parse_sealed s d o 1 [t] [PanasonicBLEPacket t []] []);
      [exact Hpre|].
    fold pre. cbn [app parse_packets]. rewrite PanasonicBLEPacket_parse_cons. cbv zeta.
    apply Z.eqb_neq in H129, H33. rewrite H129, H33.
    by rewrite take_nil, drop_nil.
Qed.

Lemma parse_reads_checksum_as_length_witness :
  exists data,
    _encode [17; 249; 1; 0; 1; 66; 0] = Ok data /\
    PanasonicBLEParcel_parse data
    = Ok {| src := COMPONENT.APP; dst := COMPONENT.I_UNIT1; op := OPERATION.SET;
            packets := [PanasonicBLEPacket 66 []] |}.
Proof.
  exact (parse_reads_checksum_as_length COMPONENT.APP COMPONENT.I_UNIT1 OPERATION.SET 66
           eq_refl ltac:(discriminate) ltac:(discriminate)).
Defined.
